(** * HR-helper: the roster engine of [src/App.tsx]

    A shallow embedding of the state held by the [App] component and of the
    handlers that manage the name list, detect and remove duplicate names,
    run the lucky draw and partition the list into groups.

    Conventions.
    - JavaScript numbers that hold integers here (indices, the group size,
      the tick counter) are [Z].
    - A string is a [string] holding the bytes of its UTF-8 encoding, so
      that equal strings are equal byte sequences; the texts are
      well-formed Unicode.
    - [Math.random()] is an input: a stream of integers, each read as the
      numerator of a fraction over [2 ^ random_bits].
    - [Array.prototype.sort] belongs to the JavaScript engine, not to the
      repository: the handlers take it as a parameter, and a reference
      engine (binary insertion sort) instantiates it.  Where the way the
      engine sorts matters, an engine is any decision tree of
      comparisons. *)

From stdpp Require Import base decidable option list numbers strings gmap sorting pretty.
From Stdlib Require Import ZArith Lia Ascii.

Local Open Scope Z_scope.

(** ** Data model ([src/types.ts], as used by [App.tsx]) *)

Record Person : Type := mkPerson { id : string; name : string }.

#[global] Instance Person_eq_dec : EqDecision Person.
Proof. solve_decision. Defined.

Inductive TabType : Type := TabInput | TabDraw | TabGroup.

(** The [useState] cells of [App], lines 32-45. *)
Record AppState : Type := mkState {
  activeTab : TabType;
  names : list Person;
  inputText : string;
  winners : list Person;
  isDrawing : bool;
  currentCandidate : option string;
  allowRepeat : bool;
  drawCount : Z;
  size : Z;
  groups : list (list Person)
}.

Definition initialState : AppState :=
  {| activeTab := TabInput; names := []; inputText := ""; winners := [];
     isDrawing := false; currentCandidate := None;
     allowRepeat := false; drawCount := 1; size := 4; groups := [] |}.

Definition setNames (v : list Person) (st : AppState) : AppState :=
  {| activeTab := activeTab st; names := v; inputText := inputText st;
     winners := winners st; isDrawing := isDrawing st;
     currentCandidate := currentCandidate st; allowRepeat := allowRepeat st;
     drawCount := drawCount st; size := size st; groups := groups st |}.

Definition setInputText (v : string) (st : AppState) : AppState :=
  {| activeTab := activeTab st; names := names st; inputText := v;
     winners := winners st; isDrawing := isDrawing st;
     currentCandidate := currentCandidate st; allowRepeat := allowRepeat st;
     drawCount := drawCount st; size := size st; groups := groups st |}.

Definition setWinners (v : list Person) (st : AppState) : AppState :=
  {| activeTab := activeTab st; names := names st; inputText := inputText st;
     winners := v; isDrawing := isDrawing st;
     currentCandidate := currentCandidate st; allowRepeat := allowRepeat st;
     drawCount := drawCount st; size := size st; groups := groups st |}.

Definition setIsDrawing (v : bool) (st : AppState) : AppState :=
  {| activeTab := activeTab st; names := names st; inputText := inputText st;
     winners := winners st; isDrawing := v;
     currentCandidate := currentCandidate st; allowRepeat := allowRepeat st;
     drawCount := drawCount st; size := size st; groups := groups st |}.

Definition setCurrentCandidate (v : option string) (st : AppState) : AppState :=
  {| activeTab := activeTab st; names := names st; inputText := inputText st;
     winners := winners st; isDrawing := isDrawing st;
     currentCandidate := v; allowRepeat := allowRepeat st;
     drawCount := drawCount st; size := size st; groups := groups st |}.

Definition setGroupSize (v : Z) (st : AppState) : AppState :=
  {| activeTab := activeTab st; names := names st; inputText := inputText st;
     winners := winners st; isDrawing := isDrawing st;
     currentCandidate := currentCandidate st; allowRepeat := allowRepeat st;
     drawCount := drawCount st; size := v; groups := groups st |}.

Definition setGroups (v : list (list Person)) (st : AppState) : AppState :=
  {| activeTab := activeTab st; names := names st; inputText := inputText st;
     winners := winners st; isDrawing := isDrawing st;
     currentCandidate := currentCandidate st; allowRepeat := allowRepeat st;
     drawCount := drawCount st; size := size st; groups := v |}.

(** ** Array helpers with JavaScript's conventions *)

Section ArrayOps.
Context {A : Type}.

(** [arr.findIndex(f)]: the first index whose element satisfies [f],
    or [-1]. *)
Fixpoint findIndex_from (f : A -> bool) (l : list A) (i : Z) : Z :=
  match l with
  | [] => -1
  | x :: l' => if f x then i else findIndex_from f l' (i + 1)
  end.

Definition findIndex (f : A -> bool) (l : list A) : Z := findIndex_from f l 0.

(** [arr.filter((x, index) => f(x, index))]. *)
Fixpoint filter_index_from (f : A -> Z -> bool) (l : list A) (i : Z) : list A :=
  match l with
  | [] => []
  | x :: l' =>
      if f x i then x :: filter_index_from f l' (i + 1)
      else filter_index_from f l' (i + 1)
  end.

Definition filter_index (f : A -> Z -> bool) (l : list A) : list A :=
  filter_index_from f l 0.

(** [arr.find(f)]. *)
Fixpoint find (f : A -> bool) (l : list A) : option A :=
  match l with
  | [] => None
  | x :: l' => if f x then Some x else find f l'
  end.

(** [arr.slice(start, end)] on integer arguments: a negative bound counts
    from the end, both bounds are clamped to [0, length]. *)
Definition slice (l : list A) (start stop : Z) : list A :=
  let len := Z.of_nat (length l) in
  let k := if start <? 0 then Z.max (len + start) 0 else Z.min start len in
  let final := if stop <? 0 then Z.max (len + stop) 0 else Z.min stop len in
  take (Z.to_nat (final - k)) (drop (Z.to_nat k) l).
End ArrayOps.

(** [a === b] on strings. *)
Definition str_eqb (a b : string) : bool := bool_decide (a = b).

(** ** Duplicate detection, lines 47-51 *)

Definition duplicates (names : list Person) : list string :=
  map name
    (filter_index
       (fun person index =>
          negb (findIndex (fun n => str_eqb (name n) (name person)) names =? index))
       names).

Definition hasDuplicates (names : list Person) : bool :=
  0 <? Z.of_nat (length (duplicates names)).

(** ** Removing duplicates, lines 63-71

    The [filter] callback reads and updates the [Set] named [seen]; the set
    is threaded through the traversal. *)

Fixpoint removeDuplicates_filter (seen : gset string) (l : list Person) : list Person :=
  match l with
  | [] => []
  | person :: l' =>
      let duplicate := bool_decide (name person ∈ seen) in
      let seen' := {[name person]} ∪ seen in
      if negb duplicate then person :: removeDuplicates_filter seen' l'
      else removeDuplicates_filter seen' l'
  end.

Definition uniqueNames (names : list Person) : list Person :=
  removeDuplicates_filter ∅ names.

Definition removeDuplicates (st : AppState) : AppState :=
  setNames (uniqueNames (names st)) st.

(** ** Removing one entry, lines 126-128 *)

Definition removeName (i : string) (st : AppState) : AppState :=
  setNames (List.filter (fun n => negb (str_eqb (id n) i)) (names st)) st.

(** ** Clearing, lines 130-136 ([confirmed] is the answer to the dialog) *)

Definition clearAll (confirmed : bool) (st : AppState) : AppState :=
  if confirmed then setGroups [] (setWinners [] (setNames [] st)) else st.

(** ** Results of handlers that may fail or not finish *)

Inductive Res (A : Type) : Type :=
| Ok (a : A)        (* the handler ran to completion *)
| Throw             (* a TypeError: a property of [undefined] was read *)
| OutOfFuel.        (* the loop was still running when the fuel ran out *)
Arguments Ok {A} a.
Arguments Throw {A}.
Arguments OutOfFuel {A}.

#[global] Instance Res_bind : MBind Res := fun A B k m =>
  match m with
  | Ok a => k a
  | Throw => Throw
  | OutOfFuel => OutOfFuel
  end.

(** [arr[i]] followed by a property read: [undefined] makes the read throw. *)
Definition index {A : Type} (l : list A) (i : Z) : Res A :=
  if i <? 0 then Throw
  else match l !! Z.to_nat i with
       | Some x => Ok x
       | None => Throw
       end.

(** ** The randomness source *)

(** The samples still to be delivered by [Math.random()], and how many were
    consumed. *)
Record Rng : Type := mkRng { samples : nat -> Z; pos : nat }.

(** The source that delivers the samples of [v], then zeros. *)
Definition stream_of (v : list Z) : Rng := mkRng (fun i => nth i v 0) O.

(** ** Text input: [split(/[\n,]+/)] and [trim()] *)

Definition is_sep (c : ascii) : bool :=
  bool_decide (c = "010"%char) || bool_decide (c = ","%char).

(** [cur] is the piece being read; [prev_sep] tells that the previous
    character belonged to a separator run, which already closed a piece. *)
Fixpoint split_from (s : string) (cur : string) (prev_sep : bool) : list string :=
  match s with
  | EmptyString => [cur]
  | String c s' =>
      if is_sep c then
        if prev_sep then split_from s' cur true
        else cur :: split_from s' EmptyString true
      else split_from s' (cur +:+ String c EmptyString) false
  end.

Definition split (s : string) : list string := split_from s EmptyString false.

(** The white space and the line terminators of ECMAScript, by the bytes of
    their UTF-8 encoding: one byte (U+0009 to U+000D, U+0020), two bytes
    (U+00A0), three bytes (U+1680, U+2000 to U+200A, U+2028, U+2029, U+202F,
    U+205F, U+3000, U+FEFF). *)
Definition byte_is (c : ascii) (n : nat) : bool := (nat_of_ascii c =? n)%nat.

Definition is_space1 (c : ascii) : bool :=
  let n := nat_of_ascii c in
  ((9 <=? n)%nat && (n <=? 13)%nat) || (n =? 32)%nat.

Definition is_space2 (c1 c2 : ascii) : bool := byte_is c1 194 && byte_is c2 160.

Definition is_space3 (c1 c2 c3 : ascii) : bool :=
  let n3 := nat_of_ascii c3 in
  (byte_is c1 225 && byte_is c2 154 && byte_is c3 128)
  || (byte_is c1 226 && byte_is c2 128 &&
      (((128 <=? n3)%nat && (n3 <=? 138)%nat)
       || (n3 =? 168)%nat || (n3 =? 169)%nat || (n3 =? 175)%nat))
  || (byte_is c1 226 && byte_is c2 129 && byte_is c3 159)
  || (byte_is c1 227 && byte_is c2 128 && byte_is c3 128)
  || (byte_is c1 239 && byte_is c2 187 && byte_is c3 191).

(** [w] is one white-space character. *)
Definition is_space_char (w : string) : bool :=
  match w with
  | String c1 EmptyString => is_space1 c1
  | String c1 (String c2 EmptyString) => is_space2 c1 c2
  | String c1 (String c2 (String c3 EmptyString)) => is_space3 c1 c2 c3
  | _ => false
  end.

(** What follows the white-space character at the front of [s], if there
    is one. *)
Definition strip_space (s : string) : option string :=
  match s with
  | EmptyString => None
  | String c1 r1 =>
      if is_space1 c1 then Some r1
      else match r1 with
           | EmptyString => None
           | String c2 r2 =>
               if is_space2 c1 c2 then Some r2
               else match r2 with
                    | EmptyString => None
                    | String c3 r3 => if is_space3 c1 c2 c3 then Some r3 else None
                    end
           end
  end.

Fixpoint trimStart (s : string) : string :=
  match s with
  | EmptyString => EmptyString
  | String c1 r1 =>
      if is_space1 c1 then trimStart r1
      else match r1 with
           | EmptyString => s
           | String c2 r2 =>
               if is_space2 c1 c2 then trimStart r2
               else match r2 with
                    | EmptyString => s
                    | String c3 r3 => if is_space3 c1 c2 c3 then trimStart r3 else s
                    end
           end
  end.

Fixpoint trimEnd (s : string) : string :=
  match s with
  | EmptyString => EmptyString
  | String c s' =>
      let t := String c (trimEnd s') in
      if is_space_char t then EmptyString else t
  end.

Definition trim (s : string) : string := trimEnd (trimStart s).

Definition nonempty (n : string) : bool := (0 <? String.length n)%nat.

(** ** Lucky draw constants, lines 155-157 *)

Definition duration : Z := 2000.
Definition interval : Z := 50.
Definition steps : Z := duration / interval.

(** How [startDraw] leaves, lines 139-151. *)
Inductive DrawStart : Type :=
| DrawIgnored                                (* line 140: plain [return] *)
| DrawNoCandidates (message : string)        (* lines 146-149: [alert], [return] *)
| DrawStarted (availableNames : list Person). (* the interval timer is set *)

(** The text of the alert, as its UTF-8 bytes. *)
Definition noCandidatesMessage : string := "沒有可抽取的名單了！".

Definition availableNames_of (st : AppState) : list Person :=
  if allowRepeat st then names st
  else List.filter
         (fun n => negb (bool_decide
                           (is_Some (find (fun w => str_eqb (id w) (id n)) (winners st)))))
         (names st).

Definition startDraw (st : AppState) : DrawStart * AppState :=
  if (Z.of_nat (length (names st)) =? 0) then (DrawIgnored, st)
  else
    let availableNames := availableNames_of st in
    if (Z.of_nat (length availableNames) =? 0)
    then (DrawNoCandidates noCandidatesMessage, st)
    else (DrawStarted availableNames, setIsDrawing true st).

(** What a whole draw amounts to. *)
Inductive DrawResult : Type :=
| Ignored                           (* nothing happened *)
| NoCandidates (message : string)   (* the operator was told the pool is empty *)
| Winner (finalWinner : Person).    (* the winner was committed *)

(** ** Group chunking, lines 186-191

    The [for] loop, one iteration per unit of fuel. *)
Fixpoint chunk_loop (fuel : nat) (shuffled : list Person) (size i : Z)
    (result : list (list Person)) : option (list (list Person)) :=
  match fuel with
  | O => None
  | S fuel' =>
      if i <? Z.of_nat (length shuffled) then
        chunk_loop fuel' shuffled size (i + size)
          (result ++ [slice shuffled i (i + size)])
      else Some result
  end.

(** The size field, line 496: [parseInt(e.target.value) || 1]; [None] is
    [NaN]. *)
Definition onSizeChange (parsed : option Z) (st : AppState) : AppState :=
  setGroupSize (match parsed with
                | Some v => if v =? 0 then 1 else v
                | None => 1
                end) st.

(** ** A reference engine

    Binary insertion sort: [comparefn] is called on the element being
    inserted and on the middle of the sorted prefix, and a negative answer
    sends the search to the left half.  The comparator may carry state
    [St] of its own.  This is one possible engine, used to instantiate the
    parameter [array_sort] in examples; an actual engine may compare in
    another order (it may look for runs first), and the theorems below
    hold for every engine. *)

Section ReferenceSort.
Context {A St : Type}.
Variable comparefn : A -> A -> St -> Z * St.

Fixpoint binary_search (fuel : nat) (pivot : A) (pre : list A)
    (left right : nat) (s : St) : nat * St :=
  match fuel with
  | O => (left, s)
  | S fuel' =>
      if (left <? right)%nat then
        let mid := (left + (right - left) / 2)%nat in
        match pre !! mid with
        | None => (left, s)
        | Some e =>
            let '(order, s') := comparefn pivot e s in
            if order <? 0 then binary_search fuel' pivot pre left mid s'
            else binary_search fuel' pivot pre (mid + 1)%nat right s'
        end
      else (left, s)
  end.

Definition insert_pivot (acc : list A * St) (pivot : A) : list A * St :=
  let '(pre, s) := acc in
  let '(k, s') := binary_search (length pre) pivot pre 0 (length pre) s in
  (take k pre ++ pivot :: drop k pre, s').

Definition insertion_sort (l : list A) (s : St) : list A * St :=
  match l with
  | [] => ([], s)
  | x :: l' => fold_left insert_pivot l' ([x], s)
  end.
End ReferenceSort.

Definition reference_sort (S : Type) (comparefn : Person -> Person -> S -> Z * S)
    : list Person -> S -> list Person * S :=
  insertion_sort comparefn.

(** A reference [Number.prototype.toString(36)] on a fraction [num / den] in
    [0, 1): ["0."] followed by the base-36 digits, as many as [fuel] allows,
    stopping when the remainder is zero.  An actual engine stops at the
    shortest digit string that reads back as the same number and rounds the
    last digit; [reference_toString36] only instantiates the parameter
    [toString36], on which no property below puts a condition. *)
Definition digit36 (d : Z) : ascii :=
  if d <? 10 then ascii_of_nat (48 + Z.to_nat d) else ascii_of_nat (87 + Z.to_nat d).

Fixpoint fraction_digits36 (fuel : nat) (num den : Z) : string :=
  match fuel with
  | O => EmptyString
  | S fuel' =>
      if num =? 0 then EmptyString
      else String (digit36 (36 * num / den))
                  (fraction_digits36 fuel' ((36 * num) mod den) den)
  end.

Definition reference_toString36 (bits : nat) (num : Z) : string :=
  if num =? 0 then "0"%string
  else ("0." +:+ fraction_digits36 bits num (2 ^ Z.of_nat bits))%string.

(** ** The handlers that depend on the engine *)

Section Engine.
(** [Math.random()] has [random_bits] bits: its values are [s / 2 ^ random_bits]
    for [0 <= s < 2 ^ random_bits]. *)
Variable random_bits : nat.

(** [x.toString(36)] for [x = s / 2 ^ random_bits], given [s]. *)
Variable toString36 : Z -> string.

(** [arr.sort(comparefn)]; the number returned by [comparefn] is given by
    an integer of the same sign. *)
Variable array_sort :
  forall S : Type, (Person -> Person -> S -> Z * S) -> list Person -> S -> list Person * S.

Definition random_den : Z := 2 ^ Z.of_nat random_bits.

(** [Math.random()]: the numerator of the next sample. *)
Definition Math_random (r : Rng) : Z * Rng :=
  (samples r (pos r) mod random_den, mkRng (samples r) (S (pos r))).

(** [Math.floor(Math.random() * n)], with the product taken exactly.  The
    engine rounds the product to a binary64 number before it takes the
    floor, which for a few samples gives the next index; the result is an
    index of [0 .. n - 1] either way, and the properties below that speak
    of the index use no more than that or fix the sample themselves. *)
Definition random_index (n : Z) (r : Rng) : Z * Rng :=
  let '(s, r') := Math_random r in (s * n / random_den, r').

(** [Math.random() - 0.5], as the numerator over [2 * random_den]. *)
Definition random_minus_half (r : Rng) : Z * Rng :=
  let '(s, r') := Math_random r in (2 * s - random_den, r').

(** [Math.random().toString(36).substr(2, 9)]. *)
Definition fresh_id (r : Rng) : string * Rng :=
  let '(s, r') := Math_random r in (String.substring 2 9 (toString36 s), r').

(** [.map(n => ({ id: ..., name: n }))], one sample per name, in order. *)
Fixpoint make_people (tokens : list string) (r : Rng) : list Person * Rng :=
  match tokens with
  | [] => ([], r)
  | n :: tokens' =>
      let '(i, r1) := fresh_id r in
      let '(ps, r2) := make_people tokens' r1 in
      ({| id := i; name := n |} :: ps, r2)
  end.

(** Manual input, lines 115-124. *)
Definition handleAddNames (st : AppState) (r : Rng) : AppState * Rng :=
  let '(newNames, r') :=
    make_people (List.filter nonempty (map trim (split (inputText st)))) r in
  (setInputText EmptyString (setNames (names st ++ newNames) st), r').

(** CSV upload, lines 96-112; [file] is [None] when no file was chosen,
    otherwise the rows the parser delivers to [complete]. *)
Definition handleFileUpload (file : option (list (list string)))
    (st : AppState) (r : Rng) : AppState * Rng :=
  match file with
  | None => (st, r)
  | Some data =>
      let '(parsedNames, r') :=
        make_people (List.filter nonempty (map trim (concat data))) r in
      (setNames (names st ++ parsedNames) st, r')
  end.

(** One firing of the interval callback, lines 159-178.  The result tells
    the new counter and, when the timer was cleared, the winner. *)
Definition tick (availableNames : list Person) (counter : Z)
    (st : AppState) (r : Rng) : Res (Z * option Person * AppState * Rng) :=
  let '(randomIndex, r1) := random_index (Z.of_nat (length availableNames)) r in
  candidate ← index availableNames randomIndex;
  let st1 := setCurrentCandidate (Some (name candidate)) st in
  let counter' := counter + 1 in
  if steps <=? counter' then
    let '(finalIndex, r2) := random_index (Z.of_nat (length availableNames)) r1 in
    finalWinner ← index availableNames finalIndex;
    let st2 := setWinners (finalWinner :: winners st1) st1 in
    let st3 := setCurrentCandidate (Some (name finalWinner)) st2 in
    Ok (counter', Some finalWinner, setIsDrawing false st3, r2)
  else Ok (counter', None, st1, r1).

(** The interval fires until the callback clears it. *)
Fixpoint run_timer (fuel : nat) (availableNames : list Person) (counter : Z)
    (st : AppState) (r : Rng) : Res (Person * AppState * Rng) :=
  match fuel with
  | O => OutOfFuel
  | S fuel' =>
      '(counter', finished, st', r') ← tick availableNames counter st r;
      match finished with
      | Some finalWinner => Ok (finalWinner, st', r')
      | None => run_timer fuel' availableNames counter' st' r'
      end
  end.

(** A whole draw with nothing else happening in between: [startDraw], then
    the interval callbacks up to the one that commits the winner. *)
Definition draw (fuel : nat) (st : AppState) (r : Rng)
    : Res (DrawResult * AppState * Rng) :=
  match startDraw st with
  | (DrawIgnored, st1) => Ok (Ignored, st1, r)
  | (DrawNoCandidates m, st1) => Ok (NoCandidates m, st1, r)
  | (DrawStarted availableNames, st1) =>
      '(w, st', r') ← run_timer fuel availableNames 0 st1 r;
      Ok (Winner w, st', r')
  end.

(** The local [shuffled] of [generateGroups], line 185. *)
Definition shuffle (names : list Person) (r : Rng) : list Person * Rng :=
  array_sort Rng (fun _ _ => random_minus_half) names r.

(** Grouping, lines 182-194. *)
Definition generateGroups (fuel : nat) (st : AppState) (r : Rng)
    : Res (AppState * Rng) :=
  if Z.of_nat (length (names st)) =? 0 then Ok (st, r)
  else
    let '(shuffled, r') := shuffle (names st) r in
    match chunk_loop fuel shuffled (size st) 0 [] with
    | Some result => Ok (setGroups result st, r')
    | None => OutOfFuel
    end.

(** The sample vectors of length [k], each sample ranging over all the
    values of [Math.random()]; they are equally likely. *)
Fixpoint all_samples (k : nat) : list (list Z) :=
  match k with
  | O => [[]]
  | S k' =>
      concat (map (fun s => map (cons s) (all_samples k')) (seqZ 0 random_den))
  end.

End Engine.

(** ** How likely each order is

    The number of sample vectors of length [k] on which a shuffle [shuf]
    turns [names] into [p]; the vectors are equally likely. *)
Definition order_count (bits : nat)
    (shuf : list Person -> Rng -> list Person * Rng)
    (k : nat) (names p : list Person) : nat :=
  length (filter (fun v => (shuf names (stream_of v)).1 = p) (all_samples bits k)).

(** The spec's "every permutation equally likely", as far as a source of
    [bits] bits per sample can tell.  The number of sample vectors is a
    power of two and cannot be split in [n!] equal parts when [n >= 3], so
    no shuffle gives exactly equal counts; what a uniform shuffle gives is
    a probability for each order that, multiplied by the number [n!] of
    orders, is within [c / 2 ^ bits] of one, for a small [c] that does not
    depend on [bits].  The roster is meant to hold distinct participants. *)
Definition uniform_up_to (bits : nat)
    (shuf : list Person -> Rng -> list Person * Rng)
    (k : nat) (names : list Person) (c : Z) : Prop :=
  forall p, p ≡ₚ names ->
    Z.abs (Z.of_nat (fact (length names)) * Z.of_nat (order_count bits shuf k names p)
           - random_den bits ^ Z.of_nat k) * random_den bits
    <= c * random_den bits ^ Z.of_nat k.

(** Two sources that deliver the same samples from now on. *)
Definition same_stream (r r' : Rng) : Prop :=
  forall i, samples r (pos r + i)%nat = samples r' (pos r' + i)%nat.

(** ** Engines as decision trees

    A comparison sort calls [comparefn] on two elements, looks at the sign
    of the answer and goes on accordingly, until it knows the result.
    [Array.prototype.sort] uses the comparator in no other way, so every
    engine is, on a given array, one such tree; which tree is the engine's
    own business. *)
Inductive SortTree : Type :=
| Sorted (result : list Person)
| Compare (a b : Person) (neg zero pos : SortTree).

Fixpoint tree_depth (t : SortTree) : nat :=
  match t with
  | Sorted _ => O
  | Compare _ _ neg zero pos =>
      S (Nat.max (tree_depth neg) (Nat.max (tree_depth zero) (tree_depth pos)))
  end.

Fixpoint run_tree {S : Type} (comparefn : Person -> Person -> S -> Z * S)
    (t : SortTree) (s : S) : list Person * S :=
  match t with
  | Sorted result => (result, s)
  | Compare a b neg zero pos =>
      let '(v, s') := comparefn a b s in
      if v <? 0 then run_tree comparefn neg s'
      else if v =? 0 then run_tree comparefn zero s'
      else run_tree comparefn pos s'
  end.

Definition tree_sort (engine : list Person -> SortTree) (S : Type)
    (comparefn : Person -> Person -> S -> Z * S) (l : list Person) (s : S)
    : list Person * S :=
  run_tree comparefn (engine l) s.

(** The number of ways in which [k] answers of a fair coin (negative or
    positive, never zero) lead the tree to the result [p]. *)
Fixpoint coin_count (p : list Person) (t : SortTree) (k : nat) : Z :=
  match t with
  | Sorted result => if decide (result = p) then 2 ^ Z.of_nat k else 0
  | Compare _ _ neg _ pos =>
      match k with
      | O => 0
      | S k' => coin_count p neg k' + coin_count p pos k'
      end
  end.

(** The tree of the reference engine on three elements: binary insertion
    ([reference_sort_tree] below).  The trees of the examples are given on
    three elements only. *)
Definition insert_third (c x y : Person) : SortTree :=
  Compare c y
    (Compare c x (Sorted [c; x; y]) (Sorted [x; c; y]) (Sorted [x; c; y]))
    (Sorted [x; y; c]) (Sorted [x; y; c]).

Definition insertion_tree (l : list Person) : SortTree :=
  match l with
  | [a; b; c] =>
      Compare b a (insert_third c b a) (insert_third c a b) (insert_third c a b)
  | _ => Sorted l
  end.

(** The tree, on three elements, of an engine that first looks for a run
    (ascending, or strictly descending and then reversed) and inserts what
    is left by binary search, as a merge sort by runs does on a short
    array. *)
Definition run_detecting_tree (l : list Person) : SortTree :=
  match l with
  | [a; b; c] =>
      Compare b a
        (Compare c b (Sorted [c; b; a]) (insert_third c b a) (insert_third c b a))
        (Compare c b (insert_third c a b) (Sorted [a; b; c]) (Sorted [a; b; c]))
        (Compare c b (insert_third c a b) (Sorted [a; b; c]) (Sorted [a; b; c]))
  | _ => Sorted l
  end.

(** ** A uniform shuffle to compare with

    What the spec asks for and the repository does not have: the
    Fisher-Yates shuffle, which for [i] from the last position down to the
    second swaps the element at [i] with the one at
    [Math.floor(Math.random() * (i + 1))]. *)
Definition swap (l : list Person) (i j : nat) : list Person :=
  match l !! i, l !! j with
  | Some x, Some y => <[i := y]> (<[j := x]> l)
  | _, _ => l
  end.

Fixpoint fisher_yates_from (bits : nat) (n : nat) (l : list Person) (r : Rng)
    : list Person * Rng :=
  match n with
  | O => (l, r)
  | S n' =>
      match n' with
      | O => (l, r)
      | S _ =>
          let '(j, r') := random_index bits (Z.of_nat n) r in
          fisher_yates_from bits n' (swap l n' (Z.to_nat j)) r'
      end
  end.

Definition fisher_yates (bits : nat) (l : list Person) (r : Rng)
    : list Person * Rng :=
  fisher_yates_from bits (length l) l r.

(** The per-entry flag of the list view, line 311. *)
Definition occurrences (n : string) (names : list Person) : nat :=
  length (List.filter (fun p => str_eqb (name p) n) names).

Definition isDuplicate (names : list Person) (person : Person) : bool :=
  (1 <? occurrences (name person) names)%nat.

(** How many times [n] is listed in an array of names. *)
Definition listed (n : string) (l : list string) : nat :=
  length (List.filter (str_eqb n) l).

(** ** Sample participants *)

Definition sampleA1 : Person := {| id := "a1"; name := "A" |}.
Definition sampleA2 : Person := {| id := "a2"; name := "A" |}.
Definition sampleA3 : Person := {| id := "a3"; name := "A" |}.
Definition sampleB : Person := {| id := "b1"; name := "B" |}.
Definition sampleC : Person := {| id := "c1"; name := "C" |}.

(** The six orders of three participants. *)
Definition orders3 (a b c : Person) : list (list Person) :=
  [[a; b; c]; [b; a; c]; [b; c; a]; [a; c; b]; [c; a; b]; [c; b; a]].

(** ** The remaining handlers *)

(** The reset button of the winner list, line 443. *)
Definition resetWinners (st : AppState) : AppState := setWinners [] st.

(** The repeat checkbox, line 409. *)
Definition setAllowRepeat (v : bool) (st : AppState) : AppState :=
  {| activeTab := activeTab st; names := names st; inputText := inputText st;
     winners := winners st; isDrawing := isDrawing st;
     currentCandidate := currentCandidate st; allowRepeat := v;
     drawCount := drawCount st; size := size st; groups := groups st |}.

(** The tab buttons, line 212. *)
Definition setActiveTab (t : TabType) (st : AppState) : AppState :=
  {| activeTab := t; names := names st; inputText := inputText st;
     winners := winners st; isDrawing := isDrawing st;
     currentCandidate := currentCandidate st; allowRepeat := allowRepeat st;
     drawCount := drawCount st; size := size st; groups := groups st |}.

(** *** The rows of the CSV export, lines 73-81

    One object per participant, with the keys of the header row: the group
    label and the name.  What follows line 81 (the CSV text, the file
    download) is done by libraries and the browser. *)
Record CsvRow : Type := mkRow { row_group : string; row_name : string }.

#[global] Instance CsvRow_eq_dec : EqDecision CsvRow.
Proof. solve_decision. Defined.

(** The template of line 78, as UTF-8 bytes around the decimal digits of
    [idx + 1]. *)
Definition groupLabel (idx : Z) : string :=
  "第 " +:+ pretty (idx + 1) +:+ " 組".

(** [arr.flatMap((x, idx) => f(x, idx))]. *)
Fixpoint flatMap_index_from {A B : Type} (f : A -> Z -> list B) (l : list A) (i : Z)
    : list B :=
  match l with
  | [] => []
  | x :: l' => f x i ++ flatMap_index_from f l' (i + 1)
  end.

Definition csvData (groups : list (list Person)) : list CsvRow :=
  flatMap_index_from
    (fun group idx =>
       map (fun person => {| row_group := groupLabel idx; row_name := name person |})
         group)
    groups 0.

(** [None]: the guard of line 74 returned; [Some rows]: the rows handed to
    the CSV writer. *)
Definition downloadGroupsCSV (st : AppState) : option (list CsvRow) :=
  if Z.of_nat (length (groups st)) =? 0 then None
  else Some (csvData (groups st)).

(** *** The sample roster, lines 53-61 (names as UTF-8 bytes) *)

Definition mockNames : list string :=
  ["陳大文"; "李小美"; "張三"; "李四"; "王五";
   "趙六"; "孫七"; "周八"; "吳九"; "鄭十";
   "林志玲"; "周杰倫"; "蔡依林"; "劉德華"; "張學友";
   "郭富城"; "黎明"; "金城武"; "梁朝偉"; "張曼玉"]%string.

(** *** Events of the page

    Each constructor is one handler of [App]; [handleEvent] runs it. *)
Inductive Event : Type :=
| EvInput (text : string)                       (* typing in the text area *)
| EvAddNames                                    (* [handleAddNames] *)
| EvUpload (file : option (list (list string))) (* [handleFileUpload] *)
| EvLoadMock                                    (* [loadMockData] *)
| EvRemoveName (i : string)                     (* [removeName] *)
| EvRemoveDuplicates                            (* [removeDuplicates] *)
| EvClearAll (confirmed : bool)                 (* [clearAll] *)
| EvAllowRepeat (v : bool)                      (* the repeat checkbox *)
| EvDraw                                        (* [startDraw] and its timer *)
| EvResetWinners                                (* the reset button *)
| EvSizeChange (parsed : option Z)              (* the size field *)
| EvGenerateGroups                              (* [generateGroups] *)
| EvTab (t : TabType).                          (* a tab button *)

Section Page.
Variable random_bits : nat.
Variable toString36 : Z -> string.
Variable array_sort :
  forall S : Type, (Person -> Person -> S -> Z * S) -> list Person -> S -> list Person * S.

(** [loadMockData]: the roster becomes the sample names, with fresh ids. *)
Definition loadMockData (st : AppState) (r : Rng) : AppState * Rng :=
  let '(mockPeople, r') := make_people random_bits toString36 mockNames r in
  (setNames mockPeople st, r').

Definition handleEvent (fuel : nat) (e : Event) (st : AppState) (r : Rng)
    : Res (AppState * Rng) :=
  match e with
  | EvInput text => Ok (setInputText text st, r)
  | EvAddNames => Ok (handleAddNames random_bits toString36 st r)
  | EvUpload file => Ok (handleFileUpload random_bits toString36 file st r)
  | EvLoadMock => Ok (loadMockData st r)
  | EvRemoveName i => Ok (removeName i st, r)
  | EvRemoveDuplicates => Ok (removeDuplicates st, r)
  | EvClearAll confirmed => Ok (clearAll confirmed st, r)
  | EvAllowRepeat v => Ok (setAllowRepeat v st, r)
  | EvDraw => '(_, st', r') ← draw random_bits fuel st r; Ok (st', r')
  | EvResetWinners => Ok (resetWinners st, r)
  | EvSizeChange parsed => Ok (onSizeChange parsed st, r)
  | EvGenerateGroups => generateGroups random_bits array_sort fuel st r
  | EvTab t => Ok (setActiveTab t st, r)
  end.

(** The events of a session, one after the other. *)
Fixpoint runEvents (fuel : nat) (es : list Event) (st : AppState) (r : Rng)
    : Res (AppState * Rng) :=
  match es with
  | [] => Ok (st, r)
  | e :: es' =>
      '(st', r') ← handleEvent fuel e st r;
      runEvents fuel es' st' r'
  end.
End Page.

(** *** Vocabulary of the properties *)

(** A name as the input handlers make them: not empty and equal to its own
    [trim()]. *)
Definition clean_name (n : string) : Prop := n <> EmptyString /\ trim n = n.

(** Some character of [s] is a separator of the text input. *)
Fixpoint has_sep (s : string) : bool :=
  match s with
  | EmptyString => false
  | String c s' => is_sep c || has_sep s'
  end.

(** Only white space. *)
Definition blank (s : string) : bool := bool_decide (trimStart s = EmptyString).

(** Only white space, commas and line breaks: nothing a name could be made
    of. *)
Fixpoint no_name_chars (s : string) : bool :=
  match s with
  | EmptyString => true
  | String c1 r1 =>
      if is_sep c1 || is_space1 c1 then no_name_chars r1
      else match r1 with
           | EmptyString => false
           | String c2 r2 =>
               if is_space2 c1 c2 then no_name_chars r2
               else match r2 with
                    | EmptyString => false
                    | String c3 r3 =>
                        if is_space3 c1 c2 c3 then no_name_chars r3 else false
                    end
           end
  end.

(** What the page keeps true of its state. *)
Definition page_invariant (st : AppState) : Prop :=
  Forall (fun p => clean_name (name p)) (names st) /\
  Forall (fun p => clean_name (name p)) (winners st) /\
  Forall (fun g => g <> [] /\ Forall (fun p => clean_name (name p)) g) (groups st) /\
  size st <> 0.

(** * Properties *)

(** ** Basic facts *)

Lemma str_eqb_eq (a b : string) : str_eqb a b = true <-> a = b.
Proof. unfold str_eqb. apply bool_decide_eq_true. Qed.

Lemma str_eqb_neq (a b : string) : str_eqb a b = false <-> a <> b.
Proof. unfold str_eqb. apply bool_decide_eq_false. Qed.

Lemma str_eqb_refl (a : string) : str_eqb a a = true.
Proof. by apply str_eqb_eq. Qed.

Lemma List_filter_sublist {A : Type} (f : A -> bool) (l : list A) :
  sublist (List.filter f l) l.
Proof.
  induction l as [|x l IH]; simpl.
  - constructor.
  - destruct (f x); by constructor.
Qed.

Lemma List_filter_elem_of {A : Type} (f : A -> bool) (l : list A) (x : A) :
  x ∈ List.filter f l <-> x ∈ l /\ f x = true.
Proof. rewrite !list_elem_of_In. apply filter_In. Qed.

(** ** Removing one entry *)

(** C10: [removeName] replaces the roster by the entries whose id differs,
    in their original order, and leaves every other cell of the state, the
    winner record and the group set among them, as it was. *)
Theorem removeName_frame (i : string) (st : AppState) :
  winners (removeName i st) = winners st /\
  groups (removeName i st) = groups st /\
  activeTab (removeName i st) = activeTab st /\
  inputText (removeName i st) = inputText st /\
  isDrawing (removeName i st) = isDrawing st /\
  currentCandidate (removeName i st) = currentCandidate st /\
  allowRepeat (removeName i st) = allowRepeat st /\
  drawCount (removeName i st) = drawCount st /\
  size (removeName i st) = size st /\
  sublist (names (removeName i st)) (names st) /\
  (forall p, p ∈ names (removeName i st) <-> p ∈ names st /\ id p <> i).
Proof.
  repeat split; try reflexivity.
  - apply List_filter_sublist.
  - apply List_filter_elem_of in H. tauto.
  - apply List_filter_elem_of in H as [_ H].
    apply negb_true_iff, str_eqb_neq in H. exact H.
  - intros [Hin Hne]. apply List_filter_elem_of. split; [exact Hin|].
    by apply negb_true_iff, str_eqb_neq.
Qed.

(** ** Removing duplicate names *)

Section RemoveDuplicates.
Implicit Types (seen : gset string) (l : list Person) (n : string).

Lemma removeDuplicates_filter_sublist seen l :
  sublist (removeDuplicates_filter seen l) l.
Proof.
  revert seen. induction l as [|p l IH]; intros seen; simpl.
  - constructor.
  - destruct (bool_decide (name p ∈ seen)); simpl; constructor; apply IH.
Qed.

Lemma removeDuplicates_filter_fresh seen l p :
  p ∈ removeDuplicates_filter seen l -> name p ∉ seen.
Proof.
  revert seen. induction l as [|q l IH]; intros seen; simpl.
  - by intros ?%elem_of_nil.
  - destruct (bool_decide_reflect (name q ∈ seen)) as [Hq|Hq]; simpl.
    + intros H%IH. set_solver.
    + intros [->|H%IH]%elem_of_cons; [done | set_solver].
Qed.

Lemma removeDuplicates_filter_NoDup seen l :
  NoDup (map name (removeDuplicates_filter seen l)).
Proof.
  revert seen. induction l as [|q l IH]; intros seen; simpl.
  - constructor.
  - destruct (bool_decide (name q ∈ seen)); simpl; [apply IH|].
    constructor; [|apply IH].
    intros (p & Hn & Hp)%list_elem_of_In%in_map_iff.
    apply list_elem_of_In, removeDuplicates_filter_fresh in Hp. set_solver.
Qed.

Lemma removeDuplicates_filter_find seen l n :
  find (fun p => str_eqb (name p) n) (removeDuplicates_filter seen l) =
  if bool_decide (n ∈ seen) then None
  else find (fun p => str_eqb (name p) n) l.
Proof.
  revert seen. induction l as [|q l IH]; intros seen; simpl.
  - by destruct (bool_decide _).
  - unfold str_eqb in *.
    case_bool_decide; simpl; rewrite ?IH;
      repeat case_bool_decide; try done;
      rewrite ?elem_of_union, ?elem_of_singleton in *; intuition congruence.
Qed.

Lemma removeDuplicates_filter_idem seen l :
  removeDuplicates_filter seen (removeDuplicates_filter seen l) =
  removeDuplicates_filter seen l.
Proof.
  revert seen. induction l as [|q l IH]; intros seen; simpl; [done|].
  destruct (bool_decide_reflect (name q ∈ seen)) as [Hq|Hq]; simpl.
  - assert ({[name q]} ∪ seen = seen) as ->
      by (by apply subseteq_union_1_L, singleton_subseteq_l).
    apply IH.
  - rewrite bool_decide_eq_false_2 by done. simpl. f_equal. apply IH.
Qed.
End RemoveDuplicates.

(** C8: [removeDuplicates] keeps a subsequence of the roster (so the
    relative order is preserved) in which no name occurs twice; for every
    name, the entry it keeps with that name is the earliest one of the
    roster (and there is one exactly when the roster has one); it changes no
    other cell of the state; and running it a second time changes nothing. *)
Theorem removeDuplicates_keeps_first (st : AppState) :
  let kept := names (removeDuplicates st) in
  sublist kept (names st) /\
  NoDup (map name kept) /\
  (forall n, find (fun p => str_eqb (name p) n) kept =
             find (fun p => str_eqb (name p) n) (names st)) /\
  winners (removeDuplicates st) = winners st /\
  groups (removeDuplicates st) = groups st /\
  removeDuplicates (removeDuplicates st) = removeDuplicates st.
Proof.
  simpl. unfold uniqueNames. repeat split.
  - apply removeDuplicates_filter_sublist.
  - apply removeDuplicates_filter_NoDup.
  - intros n. rewrite removeDuplicates_filter_find.
    rewrite bool_decide_eq_false_2; [done | set_solver].
  - unfold removeDuplicates, setNames; simpl. unfold uniqueNames.
    by rewrite removeDuplicates_filter_idem.
Qed.

(** ** Duplicate detection *)

Section Duplicates.
Implicit Types (l pre : list Person) (n : string).

Lemma occurrences_cons n p l :
  occurrences n (p :: l) =
  ((if str_eqb (name p) n then 1 else 0) + occurrences n l)%nat.
Proof. unfold occurrences; simpl. by destruct (str_eqb (name p) n). Qed.

Lemma occurrences_app n l1 l2 :
  occurrences n (l1 ++ l2) = (occurrences n l1 + occurrences n l2)%nat.
Proof. unfold occurrences. by rewrite List.filter_app, length_app. Qed.

Lemma occurrences_zero n l : occurrences n l = O <-> n ∉ map name l.
Proof.
  induction l as [|p l IH]; simpl.
  - split; [intros _ H; by apply elem_of_nil in H | done].
  - rewrite occurrences_cons, not_elem_of_cons, <- IH.
    destruct (str_eqb (name p) n) eqn:E.
    + apply str_eqb_eq in E. split; [lia | intros [H _]; congruence].
    + apply str_eqb_neq in E. split; [intros H; split; [congruence | lia] | lia].
Qed.

Lemma NoDup_names_occurrences l :
  NoDup (map name l) <-> forall n, (occurrences n l <= 1)%nat.
Proof.
  induction l as [|p l IH]; simpl.
  - split; [intros _ n; cbv; lia | constructor].
  - rewrite NoDup_cons, IH, <- occurrences_zero. split.
    + intros [Hp Hl] n. rewrite occurrences_cons.
      destruct (str_eqb (name p) n) eqn:E; [|apply Hl].
      apply str_eqb_eq in E. subst n. lia.
    + intros H. split.
      * specialize (H (name p)). rewrite occurrences_cons, str_eqb_refl in H. lia.
      * intros n. specialize (H n). rewrite occurrences_cons in H. lia.
Qed.

Lemma listed_cons n m (l : list string) :
  listed n (m :: l) = ((if str_eqb n m then 1 else 0) + listed n l)%nat.
Proof. unfold listed; simpl. by destruct (str_eqb n m). Qed.

Lemma listed_pos n (l : list string) : n ∈ l <-> (1 <= listed n l)%nat.
Proof.
  induction l as [|m l IH].
  - split; [by intros ?%elem_of_nil | cbv; lia].
  - rewrite elem_of_cons, listed_cons, IH.
    destruct (str_eqb n m) eqn:E.
    + apply str_eqb_eq in E. split; [lia | by left].
    + apply str_eqb_neq in E. split; [intros [?|?]; [done | lia] | by right].
Qed.

Lemma listed_nil (l : list string) : l = [] <-> forall n, listed n l = O.
Proof.
  split; [by intros -> | ].
  destruct l as [|m l]; [done|]. intros H. specialize (H m).
  rewrite listed_cons, str_eqb_refl in H. lia.
Qed.

(** In [pre ++ x :: l], [findIndex] stops at [x] exactly when nothing in
    [pre] satisfies the test. *)
Lemma findIndex_from_here {A : Type} (f : A -> bool) (pre : list A) x (l : list A) i :
  f x = true ->
  (findIndex_from f (pre ++ x :: l) i =? i + Z.of_nat (length pre)) =
  (length (List.filter f pre) =? 0)%nat.
Proof.
  intros Hx. revert i. induction pre as [|q pre IH]; intros i; simpl.
  - rewrite Hx. apply Z.eqb_eq. lia.
  - destruct (f q); simpl.
    + apply Z.eqb_neq. lia.
    + rewrite <- IH with (i := i + 1). f_equal. lia.
Qed.

(** The entries kept by the [filter] of line 47, read from position
    [length pre] on: a name is listed once for each entry of [l] that bears
    it, the first such entry excepted when [pre] has none. *)
Lemma duplicates_from_listed pre l n :
  listed n
    (map name
       (filter_index_from
          (fun person index =>
             negb (findIndex (fun m => str_eqb (name m) (name person)) (pre ++ l)
                   =? index))
          l (Z.of_nat (length pre)))) =
  if (occurrences n pre =? 0)%nat then pred (occurrences n l) else occurrences n l.
Proof.
  revert pre. induction l as [|x l IH]; intros pre.
  - simpl. by destruct (_ =? _)%nat.
  - cbn [filter_index_from]. unfold findIndex at 1.
    replace (Z.of_nat (length pre)) with (0 + Z.of_nat (length pre)) at 1 by lia.
    rewrite findIndex_from_here by apply str_eqb_refl.
    fold (occurrences (name x) pre).
    replace (Z.of_nat (length pre) + 1) with (Z.of_nat (length (pre ++ [x])))
      by (rewrite length_app; simpl; lia).
    replace (pre ++ x :: l) with ((pre ++ [x]) ++ l) by (by rewrite <- app_assoc).
    specialize (IH (pre ++ [x])).
    rewrite occurrences_app, occurrences_cons in IH. rewrite occurrences_cons.
    change (occurrences n []) with O in IH.
    destruct (occurrences (name x) pre =? 0)%nat eqn:Ex; simpl.
    + rewrite IH. apply Nat.eqb_eq in Ex.
      destruct (str_eqb (name x) n) eqn:E.
      * apply str_eqb_eq in E. subst n. rewrite Ex. simpl. done.
      * rewrite !Nat.add_0_r. simpl. done.
    + rewrite listed_cons, IH. apply Nat.eqb_neq in Ex.
      destruct (str_eqb (name x) n) eqn:E.
      * apply str_eqb_eq in E. subst n. rewrite str_eqb_refl.
        destruct (occurrences (name x) pre); [done|]. simpl. done.
      * assert (str_eqb n (name x) = false) as ->.
        { apply str_eqb_neq. apply str_eqb_neq in E. congruence. }
        rewrite !Nat.add_0_r. simpl. done.
Qed.

(** What line 47 lists and what [removeDuplicates] keeps make up the roster:
    from position [length pre] on, an entry is listed when its name was met
    before, and kept when it was not. *)
Lemma duplicates_from_removed pre l (seen : gset string) :
  (forall n, n ∈ seen <-> n ∈ map name pre) ->
  (length
     (filter_index_from
        (fun person index =>
           negb (findIndex (fun m => str_eqb (name m) (name person)) (pre ++ l)
                 =? index)%Z)
        l (Z.of_nat (length pre))) +
   length (removeDuplicates_filter seen l))%nat = length l.
Proof.
  revert pre seen. induction l as [|x l IH]; intros pre seen Hseen; [done|].
  cbn [filter_index_from removeDuplicates_filter]. unfold findIndex at 1.
  replace (Z.of_nat (length pre)) with (0 + Z.of_nat (length pre)) at 1 by lia.
  rewrite findIndex_from_here by apply str_eqb_refl.
  fold (occurrences (name x) pre).
  replace (Z.of_nat (length pre) + 1) with (Z.of_nat (length (pre ++ [x])))
    by (rewrite length_app; simpl; lia).
  replace (pre ++ x :: l) with ((pre ++ [x]) ++ l) by (by rewrite <- app_assoc).
  specialize (IH (pre ++ [x]) ({[name x]} ∪ seen)).
  assert (forall n, n ∈ {[name x]} ∪ seen <-> n ∈ map name (pre ++ [x])) as Hseen'.
  { intros n. rewrite elem_of_union, elem_of_singleton, Hseen, map_app, elem_of_app.
    simpl. rewrite list_elem_of_singleton. tauto. }
  specialize (IH Hseen').
  destruct (occurrences (name x) pre =? 0)%nat eqn:Ex.
  - apply Nat.eqb_eq, occurrences_zero in Ex.
    rewrite bool_decide_eq_false_2 by (by rewrite Hseen). simpl. lia.
  - apply Nat.eqb_neq in Ex.
    rewrite bool_decide_eq_true_2; [simpl; lia|].
    apply Hseen. destruct (decide (name x ∈ map name pre)) as [|Hn]; [done|].
    by apply occurrences_zero in Hn.
Qed.

(** The number on the button of line 289 is the number of entries that
    [removeDuplicates] takes away. *)
Lemma duplicates_count_removed l :
  (length (duplicates l) + length (uniqueNames l))%nat = length l.
Proof.
  unfold duplicates, filter_index, uniqueNames. rewrite length_map.
  apply (duplicates_from_removed [] l ∅). intros n. simpl.
  split; [by intros ?%not_elem_of_empty | by intros ?%elem_of_nil].
Qed.

Lemma duplicates_listed l n : listed n (duplicates l) = pred (occurrences n l).
Proof.
  unfold duplicates, filter_index.
  exact (duplicates_from_listed [] l n).
Qed.
End Duplicates.

(** C3, as stated, fails: with three participants named "A" the result
    lists "A" twice, so it is not a collection of distinct names. *)
Lemma duplicates_not_distinct :
  duplicates [sampleA1; sampleA2; sampleA3] = ["A"; "A"]%string /\
  ~ NoDup (duplicates [sampleA1; sampleA2; sampleA3]).
Proof.
  split; [reflexivity|].
  change (duplicates [sampleA1; sampleA2; sampleA3]) with ["A"; "A"]%string.
  rewrite NoDup_cons. intros [H _]. apply H. by left.
Qed.

(** The example of the specification: two participants named "A" and one
    named "B". *)
Example duplicates_example :
  duplicates [sampleA1; sampleA2; sampleB] = ["A"]%string /\
  uniqueNames [sampleA1; sampleA2; sampleB] = [sampleA1; sampleB].
Proof. split; reflexivity. Qed.

(** C3, amended: [duplicates] is an array of names that lists a name exactly
    when two or more participants bear it, once per participant beyond the
    first; it is empty exactly when the names of the roster are pairwise
    distinct. *)
Theorem duplicates_spec (names : list Person) :
  (forall n, n ∈ duplicates names <-> (2 <= occurrences n names)%nat) /\
  (forall n, listed n (duplicates names) = (occurrences n names - 1)%nat) /\
  (duplicates names = [] <-> NoDup (map name names)) /\
  (hasDuplicates names = false <-> NoDup (map name names)).
Proof.
  assert (duplicates names = [] <-> NoDup (map name names)) as Hempty.
  { rewrite listed_nil, NoDup_names_occurrences.
    split; intros H n; specialize (H n); rewrite duplicates_listed in *; lia. }
  split; [|split; [|split]].
  - intros n. rewrite listed_pos, duplicates_listed. lia.
  - intros n. rewrite duplicates_listed. lia.
  - apply Hempty.
  - rewrite <- Hempty. unfold hasDuplicates.
    destruct (duplicates names); simpl; [done|].
    split; [intros H; apply Z.ltb_ge in H; lia | done].
Qed.

(** ** The reference engine returns a permutation *)

Section ReferenceSortFacts.
Context {A St : Type}.
Variable comparefn : A -> A -> St -> Z * St.

Lemma insert_pivot_perm (pre : list A) (s : St) (pivot : A) :
  (insert_pivot comparefn (pre, s) pivot).1 ≡ₚ pivot :: pre.
Proof.
  unfold insert_pivot.
  destruct (binary_search comparefn (length pre) pivot pre 0 (length pre) s)
    as [k s'].
  simpl. rewrite <- Permutation_middle. by rewrite take_drop.
Qed.

Lemma fold_insert_pivot_perm (l pre : list A) (s : St) :
  (fold_left (insert_pivot comparefn) l (pre, s)).1 ≡ₚ pre ++ l.
Proof.
  revert pre s. induction l as [|x l IH]; intros pre s; cbn [fold_left].
  - by rewrite app_nil_r.
  - pose proof (insert_pivot_perm pre s x) as Hx.
    destruct (insert_pivot comparefn (pre, s) x) as [pre' s'].
    rewrite IH. simpl in Hx. rewrite Hx. by rewrite <- Permutation_middle.
Qed.

Lemma insertion_sort_perm (l : list A) (s : St) :
  (insertion_sort comparefn l s).1 ≡ₚ l.
Proof.
  destruct l as [|x l]; simpl; [done|].
  by rewrite fold_insert_pivot_perm.
Qed.
End ReferenceSortFacts.

Lemma reference_sort_perm (S : Type) (comparefn : Person -> Person -> S -> Z * S)
    (l : list Person) (s : S) :
  (reference_sort S comparefn l s).1 ≡ₚ l.
Proof. apply insertion_sort_perm. Qed.

(** ** The chunking loop *)

Section ChunkLoop.
Implicit Types (shuffled : list Person) (result gs : list (list Person)).

(** Inside the array and with a positive size, [slice(i, i + size)] is the
    next [size] elements, or what is left of the array. *)
Lemma slice_chunk shuffled (i size : Z) :
  0 <= i -> 1 <= size ->
  slice shuffled i (i + size) =
  take (Z.to_nat size) (drop (Z.to_nat i) shuffled).
Proof.
  intros Hi Hsize. unfold slice.
  destruct (Z.ltb_spec i 0) as [?|_]; [lia|].
  destruct (Z.ltb_spec (i + size) 0) as [?|_]; [lia|].
  destruct (Z_le_gt_dec (i + size) (Z.of_nat (length shuffled))) as [Hle|Hgt].
  - rewrite Z.min_l by lia. rewrite (Z.min_l i) by lia. f_equal. lia.
  - rewrite (Z.min_r (i + size)) by lia.
    destruct (Z_le_gt_dec i (Z.of_nat (length shuffled))) as [Hi'|Hi'].
    + rewrite (Z.min_l i) by lia.
      rewrite !take_ge by (rewrite length_drop; lia). done.
    + rewrite (Z.min_r i) by lia.
      rewrite !drop_ge by lia. by rewrite !take_nil.
Qed.

(** With a size of at least 1 the loop ends, and it appends to [result]
    the consecutive chunks of what lies from index [i] on. *)
Lemma chunk_loop_spec (fuel : nat) shuffled (size i : Z) result :
  1 <= size -> 0 <= i ->
  Z.max 0 (Z.of_nat (length shuffled) - i) < Z.of_nat fuel ->
  exists gs,
    chunk_loop fuel shuffled size i result = Some (result ++ gs) /\
    concat gs = drop (Z.to_nat i) shuffled /\
    (gs = [] <-> Z.of_nat (length shuffled) <= i) /\
    (forall k g, gs !! k = Some g ->
       1 <= Z.of_nat (length g) <= size /\
       ((S k < length gs)%nat -> Z.of_nat (length g) = size)).
Proof.
  intros Hsize. revert i result.
  induction fuel as [|fuel IH]; intros i result Hi Hfuel; [lia|].
  simpl. destruct (Z.ltb_spec i (Z.of_nat (length shuffled))) as [Hlt|Hge].
  - destruct (IH (i + size) (result ++ [slice shuffled i (i + size)]))
      as (gs & Hrun & Hcat & Hnil & Hshape); [lia | lia |].
    exists (slice shuffled i (i + size) :: gs).
    rewrite slice_chunk in * by lia.
    assert (Z.of_nat (length (take (Z.to_nat size) (drop (Z.to_nat i) shuffled)))
            = Z.min size (Z.of_nat (length shuffled) - i)) as Hlen.
    { rewrite length_take, length_drop. lia. }
    split; [by rewrite Hrun, <- app_assoc|]. split; [|split].
    + simpl. rewrite Hcat.
      replace (Z.to_nat (i + size)) with (Z.to_nat i + Z.to_nat size)%nat by lia.
      rewrite <- drop_drop. apply take_drop.
    + split; [done | lia].
    + intros [|k] g Hg; simpl in Hg.
      * injection Hg as <-. rewrite Hlen. split; [lia|].
        simpl. intros Hk. destruct gs as [|g' gs']; [simpl in Hk; lia|].
        destruct (Z_le_gt_dec (Z.of_nat (length shuffled)) (i + size)) as [Hle|?];
          [|lia].
        apply Hnil in Hle. discriminate.
      * destruct (Hshape k g Hg) as [Hb Hfull]. split; [exact Hb|].
        simpl. intros Hk. apply Hfull. lia.
  - exists []. rewrite app_nil_r. split; [done|]. split; [|split].
    + simpl. rewrite drop_ge; [done | lia].
    + split; [lia | done].
    + intros k g Hg. by rewrite lookup_nil in Hg.
Qed.

(** With a size below 1 the index never reaches the length: the loop is
    still running whatever the fuel. *)
Lemma chunk_loop_diverges (fuel : nat) shuffled (size i : Z) result :
  size < 1 -> i < Z.of_nat (length shuffled) ->
  chunk_loop fuel shuffled size i result = None.
Proof.
  intros Hsize. revert i result.
  induction fuel as [|fuel IH]; intros i result Hi; simpl; [done|].
  destruct (Z.ltb_spec i (Z.of_nat (length shuffled))) as [_|?]; [|lia].
  apply IH. lia.
Qed.

(** Chunks that fit in one group are one group. *)
Lemma single_group gs (size : Z) :
  gs <> [] ->
  Z.of_nat (length (concat gs)) <= size ->
  (forall k g, gs !! k = Some g ->
     1 <= Z.of_nat (length g) <= size /\
     ((S k < length gs)%nat -> Z.of_nat (length g) = size)) ->
  gs = [concat gs].
Proof.
  intros Hne Hlen Hshape. destruct gs as [|g [|g' gs']]; [done | | ].
  - simpl. by rewrite app_nil_r.
  - exfalso.
    destruct (Hshape O g eq_refl) as [_ Hg]. specialize (Hg ltac:(simpl; lia)).
    destruct (Hshape 1%nat g' eq_refl) as [Hg' _].
    simpl in Hlen. rewrite !length_app in Hlen. lia.
Qed.
End ChunkLoop.

(** ** Grouping *)

Section Grouping.
Variable random_bits : nat.
Variable array_sort :
  forall S : Type, (Person -> Person -> S -> Z * S) -> list Person -> S -> list Person * S.

(** What every engine grants of [sort], whatever the comparator answers:
    the array holds the same elements afterwards. *)
Hypothesis array_sort_perm :
  forall S comparefn l s, (array_sort S comparefn l s).1 ≡ₚ l.

Lemma shuffle_perm (names : list Person) (r : Rng) :
  (shuffle random_bits array_sort names r).1 ≡ₚ names.
Proof. apply array_sort_perm. Qed.

(** C7: on a non-empty roster and with a size of at least 1,
    [generateGroups] finishes (any fuel above the roster length is
    enough) and stores groups whose concatenation is a permutation of the
    roster; every group has between 1 and [size] members and every group
    but the last has exactly [size]; when [size] exceeds the roster
    length there is one group, holding all the participants. *)
Theorem generateGroups_partition (fuel : nat) (st : AppState) (r : Rng) :
  names st <> [] ->
  1 <= size st ->
  (length (names st) < fuel)%nat ->
  exists gs r',
    generateGroups random_bits array_sort fuel st r = Ok (setGroups gs st, r') /\
    concat gs ≡ₚ names st /\
    (forall k g, gs !! k = Some g ->
       1 <= Z.of_nat (length g) <= size st /\
       ((S k < length gs)%nat -> Z.of_nat (length g) = size st)) /\
    (Z.of_nat (length (names st)) < size st ->
       exists g, gs = [g] /\ g ≡ₚ names st).
Proof.
  intros Hne Hsize Hfuel. unfold generateGroups.
  destruct (Z.eqb_spec (Z.of_nat (length (names st))) 0) as [H0|_].
  { destruct (names st); [done | simpl in H0; lia]. }
  pose proof (shuffle_perm (names st) r) as Hperm.
  destruct (shuffle random_bits array_sort (names st) r) as [shuffled r'].
  simpl in Hperm.
  assert (length shuffled = length (names st)) as Hlen by (by rewrite Hperm).
  destruct (chunk_loop_spec fuel shuffled (size st) 0 [])
    as (gs & Hrun & Hcat & Hnil & Hshape); [lia | lia | lia |].
  simpl in Hrun. change (drop (Z.to_nat 0) shuffled) with shuffled in Hcat.
  rewrite Hrun. exists gs, r'.
  split; [done|]. split; [by rewrite Hcat|]. split; [exact Hshape|].
  intros Hbig. exists (concat gs). split; [|by rewrite Hcat].
  apply (single_group gs (size st)); [ | rewrite Hcat; lia | exact Hshape].
  intros Hgs. apply Hnil in Hgs. destruct (names st); [done | simpl in *; lia].
Qed.

(** C4, amended: on an empty roster [generateGroups] returns at once,
    without an error and whatever the size: the whole state, the group
    set included, is what it was; so the group set is empty afterwards
    when it was empty before. *)
Theorem generateGroups_empty_roster (fuel : nat) (st : AppState) (r : Rng) :
  names st = [] ->
  generateGroups random_bits array_sort fuel st r = Ok (st, r) /\
  (groups st = [] ->
   exists st', generateGroups random_bits array_sort fuel st r = Ok (st', r) /\
               groups st' = []).
Proof.
  intros Hnames. unfold generateGroups. rewrite Hnames. simpl.
  split; [done|]. intros Hg. by exists st.
Qed.

(** C2: on a non-empty roster and with a size below 1, [generateGroups]
    signals nothing and stores nothing: its loop is still running when
    the fuel runs out, however much fuel there is. *)
Theorem generateGroups_invalid_size_hangs (fuel : nat) (st : AppState) (r : Rng) :
  names st <> [] ->
  size st < 1 ->
  generateGroups random_bits array_sort fuel st r = OutOfFuel.
Proof.
  intros Hne Hsize. unfold generateGroups.
  destruct (Z.eqb_spec (Z.of_nat (length (names st))) 0) as [H0|_].
  { destruct (names st); [done | simpl in H0; lia]. }
  pose proof (shuffle_perm (names st) r) as Hperm.
  destruct (shuffle random_bits array_sort (names st) r) as [shuffled r'].
  simpl in Hperm.
  assert (length shuffled = length (names st)) as Hlen by (by rewrite Hperm).
  rewrite chunk_loop_diverges; [done | done |].
  destruct (names st); [done | simpl in *; lia].
Qed.
End Grouping.

(** The roster of the example: five participants, groups of two. *)
Lemma generateGroups_partition_witness :
  exists gs r',
    generateGroups 53 reference_sort 6
      (setGroupSize 2 (setNames [sampleA1; sampleB; sampleC; sampleA2; sampleA3]
                         initialState)) (stream_of []) =
    Ok (setGroups gs
          (setGroupSize 2 (setNames [sampleA1; sampleB; sampleC; sampleA2; sampleA3]
                             initialState)), r') /\
    concat gs ≡ₚ [sampleA1; sampleB; sampleC; sampleA2; sampleA3] /\
    (forall k g, gs !! k = Some g ->
       1 <= Z.of_nat (length g) <= 2 /\
       ((S k < length gs)%nat -> Z.of_nat (length g) = 2)) /\
    (Z.of_nat 5 < 2 ->
       exists g, gs = [g] /\ g ≡ₚ [sampleA1; sampleB; sampleC; sampleA2; sampleA3]).
Proof.
  apply (generateGroups_partition 53 reference_sort reference_sort_perm 6
           (setGroupSize 2 (setNames [sampleA1; sampleB; sampleC; sampleA2; sampleA3]
                              initialState)) (stream_of [])).
  - discriminate.
  - simpl. lia.
  - simpl. lia.
Defined.

(** The sizes of the example's groups are 2, 2 and 1. *)
Example generateGroups_five_by_two :
  exists gs r',
    generateGroups 53 reference_sort 6
      (setGroupSize 2 (setNames [sampleA1; sampleB; sampleC; sampleA2; sampleA3]
                         initialState)) (stream_of []) =
    Ok (setGroups gs
          (setGroupSize 2 (setNames [sampleA1; sampleB; sampleC; sampleA2; sampleA3]
                             initialState)), r') /\
    map length gs = [2; 2; 1]%nat.
Proof. eexists _, _. split; [vm_compute; reflexivity | reflexivity]. Qed.

(** C4, as stated, fails: after a participant was grouped and then removed,
    the roster is empty and the group set is not; [generateGroups] leaves
    that group set in place. *)
Lemma generateGroups_empty_keeps_groups :
  exists st1 r1 st3 r3,
    generateGroups 53 reference_sort 2
      (setGroupSize 4 (setNames [sampleA1] initialState)) (stream_of []) =
      Ok (st1, r1) /\
    names (removeName "a1" st1) = [] /\
    1 <= size (removeName "a1" st1) /\
    generateGroups 53 reference_sort 2 (removeName "a1" st1) r1 = Ok (st3, r3) /\
    groups st3 = [[sampleA1]] /\
    groups st3 <> [].
Proof.
  eexists _, _, _, _.
  split; [vm_compute; reflexivity|].
  split; [reflexivity|]. split; [vm_compute; discriminate|].
  split; [vm_compute; reflexivity|].
  split; [reflexivity | discriminate].
Qed.

(** The initial state: no roster, no groups. *)
Lemma generateGroups_empty_roster_witness :
  generateGroups 53 reference_sort 0 initialState (stream_of []) =
    Ok (initialState, stream_of []) /\
  (groups initialState = [] ->
   exists st', generateGroups 53 reference_sort 0 initialState (stream_of []) =
                 Ok (st', stream_of []) /\
               groups st' = []).
Proof.
  apply (generateGroups_empty_roster 53 reference_sort 0 initialState (stream_of [])).
  reflexivity.
Defined.

(** The failing input of C2: one participant and the size -1, which the size
    field accepts ([parseInt("-1") || 1] is [-1]). *)
Lemma generateGroups_invalid_size_hangs_witness :
  size (onSizeChange (Some (-1)) (setNames [sampleA1] initialState)) = -1 /\
  generateGroups 53 reference_sort 1000
    (onSizeChange (Some (-1)) (setNames [sampleA1] initialState)) (stream_of []) =
  OutOfFuel.
Proof.
  split; [reflexivity|].
  apply (generateGroups_invalid_size_hangs 53 reference_sort reference_sort_perm 1000
           (onSizeChange (Some (-1)) (setNames [sampleA1] initialState))
           (stream_of [])).
  - discriminate.
  - simpl. lia.
Defined.

(** ** The lucky draw *)

Lemma find_None {A : Type} (f : A -> bool) (l : list A) :
  find f l = None <-> forall x, x ∈ l -> f x = false.
Proof.
  induction l as [|y l IH]; simpl.
  - split; [intros _ x Hx; by apply elem_of_nil in Hx | done].
  - destruct (f y) eqn:E.
    + split; [done|]. intros H. specialize (H y ltac:(by left)). congruence.
    + rewrite IH. split.
      * intros H x [->|Hx]%elem_of_cons; [done | by apply H].
      * intros H x Hx. apply H. by right.
Qed.

(** A winner has the id [i] exactly when [find] meets one. *)
Lemma find_winner_id (i : string) (ws : list Person) :
  is_Some (find (fun w => str_eqb (id w) i) ws) <-> i ∈ map id ws.
Proof.
  rewrite <- not_eq_None_Some, find_None. split.
  - intros H. destruct (decide (i ∈ map id ws)) as [|Hn]; [done|].
    exfalso. apply H. intros x Hx. apply str_eqb_neq. intros <-.
    apply Hn, list_elem_of_In, in_map, list_elem_of_In, Hx.
  - intros (w & <- & Hw)%list_elem_of_In%in_map_iff H.
    apply list_elem_of_In, H in Hw. by rewrite str_eqb_refl in Hw.
Qed.

(** The eligible pool. *)
Lemma availableNames_of_elem (st : AppState) (p : Person) :
  p ∈ availableNames_of st <->
  p ∈ names st /\ (allowRepeat st = false -> id p ∉ map id (winners st)).
Proof.
  unfold availableNames_of. destruct (allowRepeat st).
  - split; [by intros H | by intros [H _]].
  - rewrite List_filter_elem_of, negb_true_iff, bool_decide_eq_false, find_winner_id.
    split; [intros [H1 H2]; auto | intros [H1 H2]; auto].
Qed.

Lemma index_in_range {A : Type} (l : list A) (i : Z) :
  0 <= i < Z.of_nat (length l) -> exists x, index l i = Ok x /\ x ∈ l.
Proof.
  intros Hi. unfold index. destruct (Z.ltb_spec i 0) as [?|_]; [lia|].
  destruct (l !! Z.to_nat i) as [x|] eqn:E.
  - exists x. split; [done|]. by eapply list_elem_of_lookup_2.
  - apply lookup_ge_None in E. lia.
Qed.

Section Draw.
Variable random_bits : nat.

Lemma random_den_pos : 0 < random_den random_bits.
Proof. unfold random_den. apply Z.pow_pos_nonneg; lia. Qed.

(** [Math.floor(Math.random() * n)] is an index below [n]. *)
Lemma random_index_range (n : Z) (r : Rng) :
  0 < n -> 0 <= (random_index random_bits n r).1 < n.
Proof.
  intros Hn. unfold random_index, Math_random. simpl.
  pose proof random_den_pos as Hd.
  pose proof (Z.mod_pos_bound (samples r (pos r)) _ Hd) as Hs.
  split.
  - apply Z.div_pos; [nia | lia].
  - apply Z.div_lt_upper_bound; [lia | nia].
Qed.

(** The timer commits one member of the pool as the winner, in front of
    the winner record, and touches neither the roster nor the groups. *)
Lemma run_timer_spec (fuel : nat) (pool : list Person) (counter : Z)
    (st : AppState) (r : Rng) :
  pool <> [] ->
  Z.max 1 (steps - counter) <= Z.of_nat fuel ->
  exists w st' r',
    run_timer random_bits fuel pool counter st r = Ok (w, st', r') /\
    w ∈ pool /\
    winners st' = w :: winners st /\
    names st' = names st /\
    groups st' = groups st /\
    isDrawing st' = false /\
    currentCandidate st' = Some (name w).
Proof.
  intros Hpool. revert counter st r.
  assert (0 < Z.of_nat (length pool)) as Hlen
    by (destruct pool; [done | simpl; lia]).
  induction fuel as [|fuel IH]; intros counter st r Hfuel; [lia|].
  cbn [run_timer]. unfold tick.
  pose proof (random_index_range _ r Hlen) as Hi1.
  destruct (random_index random_bits (Z.of_nat (length pool)) r) as [i1 r1].
  destruct (index_in_range pool i1 Hi1) as (c & -> & Hc). cbn [mbind Res_bind].
  destruct (Z.leb_spec steps (counter + 1)) as [Hdone|Hmore].
  - pose proof (random_index_range _ r1 Hlen) as Hi2.
    destruct (random_index random_bits (Z.of_nat (length pool)) r1) as [i2 r2].
    destruct (index_in_range pool i2 Hi2) as (w & -> & Hw). cbn [mbind Res_bind].
    eexists _, _, _. split; [reflexivity|]. by repeat split.
  - destruct (IH (counter + 1) (setCurrentCandidate (Some (name c)) st) r1)
      as (w & st' & r' & Hrun & Hw & Hwin & Hnames & Hgroups & Hdraw & Hcur);
      [lia|].
    exists w, st', r'. by repeat split.
Qed.
End Draw.

Section DrawClaims.
Variable random_bits : nat.

Lemma length_zero_nil {A : Type} (l : list A) :
  (Z.of_nat (length l) =? 0) = true <-> l = [].
Proof.
  rewrite Z.eqb_eq. destruct l; simpl; split; intros; (done || lia).
Qed.

Lemma availableNames_of_nil (st : AppState) :
  names st <> [] ->
  (availableNames_of st = [] <->
   allowRepeat st = false /\
   forall p, p ∈ names st -> id p ∈ map id (winners st)).
Proof.
  intros Hne. split.
  - intros Hnil. destruct (allowRepeat st) eqn:Hrep.
    + unfold availableNames_of in Hnil. rewrite Hrep in Hnil. done.
    + split; [done|]. intros p Hp.
      destruct (decide (id p ∈ map id (winners st))) as [|Hn]; [done|].
      assert (p ∈ availableNames_of st) as Hin
        by (apply availableNames_of_elem; auto).
      rewrite Hnil in Hin. by apply elem_of_nil in Hin.
  - intros [Hrep Hall]. destruct (availableNames_of st) as [|p l] eqn:E; [done|].
    assert (p ∈ availableNames_of st) as Hin by (rewrite E; by left).
    apply availableNames_of_elem in Hin as [Hp Hid].
    exfalso. apply (Hid Hrep), Hall, Hp.
Qed.

(** C6: without repeats and with an eligible participant left, a draw
    finishes (40 firings of the timer are enough) with a winner that is
    in the roster and whose id is not in the winner record; the winner is
    put in front of the winner record, the roster stays as it was; and
    when the pool is a single participant, that participant wins whatever
    the random samples are. *)
Theorem draw_without_repeat (fuel : nat) (st : AppState) (r : Rng) :
  allowRepeat st = false ->
  (exists p, p ∈ names st /\ id p ∉ map id (winners st)) ->
  (40 <= fuel)%nat ->
  exists w st' r',
    draw random_bits fuel st r = Ok (Winner w, st', r') /\
    w ∈ names st /\
    (id w ∉ map id (winners st)) /\
    winners st' = w :: winners st /\
    names st' = names st /\
    (forall p, availableNames_of st = [p] -> w = p).
Proof.
  intros Hrep (p & Hp & Hid) Hfuel.
  assert (p ∈ availableNames_of st) as Hpool
    by (apply availableNames_of_elem; auto).
  assert (availableNames_of st <> []) as Hne
    by (intros E; rewrite E in Hpool; by apply elem_of_nil in Hpool).
  assert (names st <> []) as Hnames
    by (intros E; rewrite E in Hp; by apply elem_of_nil in Hp).
  unfold draw, startDraw.
  destruct (Z.of_nat (length (names st)) =? 0) eqn:E1;
    [by apply length_zero_nil in E1|].
  destruct (Z.of_nat (length (availableNames_of st)) =? 0) eqn:E2;
    [by apply length_zero_nil in E2|].
  destruct (run_timer_spec random_bits fuel (availableNames_of st) 0
              (setIsDrawing true st) r Hne)
    as (w & st' & r' & Hrun & Hw & Hwin & Hn & _);
    [change steps with 40; lia|].
  rewrite Hrun. cbn [mbind Res_bind]. exists w, st', r'.
  pose proof Hw as Hw'. apply availableNames_of_elem in Hw' as [Hw1 Hw2].
  repeat split; auto.
  intros q Hq. rewrite Hq in Hw. by apply list_elem_of_singleton in Hw.
Qed.

(** C5, amended: on an empty roster a draw returns at once and tells the
    operator nothing; on a non-empty roster, without repeats and with
    the id of every participant already in the winner record, it tells
    the operator that no candidate is left; in both cases the whole
    state, the winner record and the roster included, is what it was.
    That message is given in no other case, and a draw never fails
    otherwise (40 firings of the timer are enough to finish). *)
Theorem draw_empty_pool (fuel : nat) (st : AppState) (r : Rng) :
  (names st = [] ->
   draw random_bits fuel st r = Ok (Ignored, st, r)) /\
  (names st <> [] -> allowRepeat st = false ->
   (forall p, p ∈ names st -> id p ∈ map id (winners st)) ->
   draw random_bits fuel st r = Ok (NoCandidates noCandidatesMessage, st, r)) /\
  (forall m st' r',
     draw random_bits fuel st r = Ok (NoCandidates m, st', r') ->
     names st <> [] /\ allowRepeat st = false /\
     (forall p, p ∈ names st -> id p ∈ map id (winners st)) /\
     st' = st /\ r' = r) /\
  ((40 <= fuel)%nat ->
   exists res st' r', draw random_bits fuel st r = Ok (res, st', r')).
Proof.
  unfold draw, startDraw. split; [|split; [|split]].
  - intros Hnil. by rewrite Hnil.
  - intros Hne Hrep Hall.
    destruct (Z.of_nat (length (names st)) =? 0) eqn:E1;
      [by apply length_zero_nil in E1|].
    assert (availableNames_of st = []) as ->
      by (by apply availableNames_of_nil).
    done.
  - intros m st' r'.
    destruct (Z.of_nat (length (names st)) =? 0) eqn:E1; [done|].
    assert (names st <> []) as Hne
      by (intros E; apply length_zero_nil in E; congruence).
    destruct (Z.of_nat (length (availableNames_of st)) =? 0) eqn:E2.
    + apply length_zero_nil, availableNames_of_nil in E2 as [Hrep Hall]; [|done].
      intros [= <- <- <-]. auto.
    + destruct (run_timer random_bits fuel (availableNames_of st) 0
                  (setIsDrawing true st) r) as [[[w st1] r1]| |]; done.
  - intros Hfuel.
    destruct (Z.of_nat (length (names st)) =? 0) eqn:E1; [by eexists _, _, _|].
    destruct (Z.of_nat (length (availableNames_of st)) =? 0) eqn:E2;
      [by eexists _, _, _|].
    assert (availableNames_of st <> []) as Hne
      by (intros E; apply length_zero_nil in E; congruence).
    destruct (run_timer_spec random_bits fuel (availableNames_of st) 0
                (setIsDrawing true st) r Hne)
      as (w & st' & r' & Hrun & _); [change steps with 40; lia|].
    rewrite Hrun. cbn [mbind Res_bind]. by eexists _, _, _.
Qed.
End DrawClaims.

(** The example of the specification: roster [A, B], winner record [A], no
    repeats; the pool is [B]. *)
Lemma draw_without_repeat_witness :
  exists w st' r',
    draw 53 40 (setWinners [sampleA1] (setNames [sampleA1; sampleB] initialState))
      (stream_of []) = Ok (Winner w, st', r') /\
    w ∈ [sampleA1; sampleB] /\
    (id w ∉ map id [sampleA1]) /\
    winners st' = [w; sampleA1] /\
    names st' = [sampleA1; sampleB] /\
    (forall p,
       availableNames_of
         (setWinners [sampleA1] (setNames [sampleA1; sampleB] initialState)) = [p] ->
       w = p).
Proof.
  apply (draw_without_repeat 53 40
           (setWinners [sampleA1] (setNames [sampleA1; sampleB] initialState))
           (stream_of [])).
  - reflexivity.
  - exists sampleB. split.
    + right. left.
    + simpl. intros H. apply list_elem_of_singleton in H. discriminate.
  - lia.
Defined.

(** C5, as stated, fails: on the empty roster a draw is ignored; the
    operator is not told that there are no candidates. *)
Lemma draw_empty_roster_silent :
  names initialState = [] /\
  draw 53 40 initialState (stream_of []) = Ok (Ignored, initialState, stream_of []) /\
  ~ (exists m st' r',
       draw 53 40 initialState (stream_of []) = Ok (NoCandidates m, st', r')).
Proof.
  split; [reflexivity|]. split; [reflexivity|].
  intros (m & st' & r' & H). discriminate H.
Qed.

(** Roster [A], winner record [A], no repeats: the pool is exhausted. *)
Lemma draw_empty_pool_witness :
  draw 53 40 (setWinners [sampleA1] (setNames [sampleA1] initialState))
    (stream_of []) =
  Ok (NoCandidates noCandidatesMessage,
      setWinners [sampleA1] (setNames [sampleA1] initialState), stream_of []).
Proof.
  apply (draw_empty_pool 53 40
           (setWinners [sampleA1] (setNames [sampleA1] initialState))
           (stream_of [])).
  - discriminate.
  - reflexivity.
  - intros p Hp. apply list_elem_of_singleton in Hp. subst p. simpl. left.
Defined.

(** ** Fresh ids *)

Section FreshIds.
Variable random_bits : nat.
Variable toString36 : Z -> string.

(** The id is a function of the sample alone. *)
Lemma fresh_id_of_sample (r : Rng) :
  (fresh_id random_bits toString36 r).1 =
  String.substring 2 9 (toString36 (samples r (pos r) mod random_den random_bits)).
Proof. reflexivity. Qed.

(** C9: when the random source delivers the same sample [x] again, the
    participants created from it carry the same id, be they created by
    one manual input, by one upload, or by two inputs in a row; removing
    one of them by its id then removes the other as well. *)
Theorem fresh_ids_collide (x : Z) :
  names (handleAddNames random_bits toString36
           (setInputText "A,B" initialState) (mkRng (fun _ => x) O)).1 =
    [ {| id := String.substring 2 9 (toString36 (x mod random_den random_bits));
         name := "A" |};
      {| id := String.substring 2 9 (toString36 (x mod random_den random_bits));
         name := "B" |} ] /\
  names (handleFileUpload random_bits toString36
           (Some [["A"; "B"]]%string) initialState (mkRng (fun _ => x) O)).1 =
    [ {| id := String.substring 2 9 (toString36 (x mod random_den random_bits));
         name := "A" |};
      {| id := String.substring 2 9 (toString36 (x mod random_den random_bits));
         name := "B" |} ] /\
  names (handleAddNames random_bits toString36
           (setInputText "B"
              (handleAddNames random_bits toString36
                 (setInputText "A" initialState) (mkRng (fun _ => x) O)).1)
           (handleAddNames random_bits toString36
              (setInputText "A" initialState) (mkRng (fun _ => x) O)).2).1 =
    [ {| id := String.substring 2 9 (toString36 (x mod random_den random_bits));
         name := "A" |};
      {| id := String.substring 2 9 (toString36 (x mod random_den random_bits));
         name := "B" |} ] /\
  names (removeName
           (String.substring 2 9 (toString36 (x mod random_den random_bits)))
           (handleAddNames random_bits toString36
              (setInputText "A,B" initialState) (mkRng (fun _ => x) O)).1) = [].
Proof.
  split; [reflexivity|]. split; [reflexivity|]. split; [reflexivity|].
  unfold removeName. cbn [names setNames].
  set (i := String.substring 2 9 (toString36 (x mod random_den random_bits))).
  change (names (handleAddNames random_bits toString36
                   (setInputText "A,B" initialState) (mkRng (fun _ => x) O)).1)
    with [ {| id := i; name := "A" |}; {| id := i; name := "B" |} ].
  cbn [List.filter id]. by rewrite str_eqb_refl.
Qed.
End FreshIds.

(** With the reference number formatting and the sample 1/2, both ids are
    ["i"]. *)
Example fresh_ids_collide_reference :
  names (handleAddNames 53 (reference_toString36 53)
           (setInputText "A,B" initialState) (mkRng (fun _ => 2 ^ 52) O)).1 =
  [ {| id := "i"; name := "A" |}; {| id := "i"; name := "B" |} ].
Proof. vm_compute. reflexivity. Qed.

(** ** The shuffle is not uniform *)

Lemma pow2_not_multiple_of_3 (n : nat) : ((2 ^ n) mod 3 <> 0)%nat.
Proof.
  enough ((2 ^ n) mod 3 = 1 \/ (2 ^ n) mod 3 = 2)%nat by lia.
  induction n as [|n IH]; [by left|].
  rewrite Nat.pow_succ_r', Nat.Div0.mul_mod, (Nat.mod_small 2 3) by lia.
  destruct IH as [-> | ->]; [by right | by left].
Qed.

Lemma orders3_complete (a b c : Person) (p : list Person) :
  p ≡ₚ [a; b; c] <-> p ∈ orders3 a b c.
Proof.
  split.
  - intros Hp. symmetry in Hp. by apply permutations_Permutation in Hp.
  - intros Hp. symmetry. apply permutations_Permutation. exact Hp.
Qed.

Lemma length_prefixed (ss : list Z) (L : list (list Z)) :
  length (concat (map (fun s => map (cons s) L) ss)) =
  (length ss * length L)%nat.
Proof.
  induction ss as [|s ss IH]; simpl; [done|].
  by rewrite length_app, length_map, IH.
Qed.

(** Counting by the first sample: on a set [ss] of first samples that all
    lead to the same predicate [Q] on the rest. *)
Lemma count_prefixed (P Q : list Z -> Prop)
    `{!forall v, Decision (P v)} `{!forall v, Decision (Q v)}
    (s : Z) (L : list (list Z)) :
  (forall v, P (s :: v) <-> Q v) ->
  length (filter P (map (cons s) L)) = length (filter Q L).
Proof.
  intros HPQ. induction L as [|v L IHL]; [done|].
  cbn [map]. rewrite !filter_cons.
  destruct (decide (P (s :: v))) as [HP|HP], (decide (Q v)) as [HQ|HQ];
    cbn [length]; rewrite ?IHL; try done.
  - exfalso. by apply HQ, (HPQ v).
  - exfalso. by apply HP, (HPQ v).
Qed.

Lemma count_first_sample (P Q : list Z -> Prop)
    `{!forall v, Decision (P v)} `{!forall v, Decision (Q v)}
    (ss : list Z) (L : list (list Z)) :
  (forall s v, s ∈ ss -> P (s :: v) <-> Q v) ->
  length (filter P (concat (map (fun s => map (cons s) L) ss))) =
  (length ss * length (filter Q L))%nat.
Proof.
  intros HPQ. induction ss as [|s ss IH]; [done|].
  cbn [map concat length]. rewrite filter_app, length_app, IH.
  - rewrite (count_prefixed P Q s L); [lia|].
    intros v. apply HPQ. left.
  - intros s' v Hs'. apply HPQ. by right.
Qed.

Lemma count_constant (P : list Z -> Prop) (Q : Prop)
    `{!forall v, Decision (P v)} `{!Decision Q} (L : list (list Z)) :
  (forall v, P v <-> Q) ->
  length (filter P L) = if decide Q then length L else O.
Proof.
  intros HPQ. induction L as [|v L IH]; [by destruct (decide Q)|].
  rewrite filter_cons.
  destruct (decide (P v)) as [HP|HP], (decide Q) as [HQ|HQ]; cbn [length];
    rewrite ?IH; try done.
  - exfalso. by apply HQ, (HPQ v).
  - exfalso. by apply HP, (HPQ v).
Qed.

Lemma count_le_length (P : list Z -> Prop) `{!forall v, Decision (P v)}
    (L : list (list Z)) :
  (length (filter P L) <= length L)%nat.
Proof. apply length_filter. Qed.

(** The first sample is consumed, the rest is the stream of the tail. *)
Lemma stream_tail (s : Z) (v : list Z) :
  same_stream (mkRng (samples (stream_of (s :: v))) 1) (stream_of v).
Proof. intros i. reflexivity. Qed.

Lemma same_stream_next (r r' : Rng) :
  same_stream r r' ->
  same_stream (mkRng (samples r) (S (pos r))) (mkRng (samples r') (S (pos r'))).
Proof.
  intros Hrr i. cbn [samples pos].
  specialize (Hrr (S i)). by rewrite <- !Nat.add_succ_comm in Hrr.
Qed.

Lemma same_stream_sample (r r' : Rng) :
  same_stream r r' -> samples r (pos r) = samples r' (pos r').
Proof. intros Hrr. specialize (Hrr O). by rewrite !Nat.add_0_r in Hrr. Qed.

Section SampleCounting.
Variable bits : nat.
Hypothesis bits_pos : (1 <= bits)%nat.

Let D := random_den bits.
Let H := 2 ^ (Z.of_nat bits - 1).

Lemma den_double : D = 2 * H.
Proof.
  unfold D, H, random_den.
  replace (Z.of_nat bits) with (1 + (Z.of_nat bits - 1)) at 1 by lia.
  rewrite Z.pow_add_r by lia. done.
Qed.

Lemma half_pos : 0 < H.
Proof. unfold H. apply Z.pow_pos_nonneg; lia. Qed.

Lemma den_pow_pos (k : nat) : 0 < D ^ Z.of_nat k.
Proof. apply Z.pow_pos_nonneg; [|lia]. pose proof den_double. pose proof half_pos. lia. Qed.

Lemma den_pow_succ (k : nat) : D ^ Z.of_nat (S k) = D * D ^ Z.of_nat k.
Proof. rewrite Nat2Z.inj_succ, Z.pow_succ_r by lia. done. Qed.

(** There are [D ^ k] sample vectors of length [k]. *)
Lemma length_all_samples (k : nat) :
  Z.of_nat (length (all_samples bits k)) = D ^ Z.of_nat k.
Proof.
  induction k as [|k IH]; [done|].
  rewrite den_pow_succ. cbn [all_samples].
  rewrite length_prefixed, Nat2Z.inj_mul, IH, length_seqZ.
  fold D. pose proof den_double. pose proof half_pos. lia.
Qed.

(** *** The random comparator on a decision tree *)

Lemma run_tree_same_stream (t : SortTree) (r r' : Rng) :
  same_stream r r' ->
  (run_tree (fun _ _ => random_minus_half bits) t r).1 =
  (run_tree (fun _ _ => random_minus_half bits) t r').1.
Proof.
  revert r r'. induction t as [res | a b neg IHn zero IHz ps IHp];
    intros r r' Hrr; [done|].
  cbn [run_tree]. unfold random_minus_half, Math_random.
  rewrite (same_stream_sample r r' Hrr).
  pose proof (same_stream_next r r' Hrr) as Hnext.
  destruct (_ <? 0); [by apply IHn|].
  destruct (_ =? 0); [by apply IHz | by apply IHp].
Qed.

Lemma run_tree_first_sample (a b : Person) (neg zero ps : SortTree)
    (s : Z) (v : list Z) :
  0 <= s < D ->
  (run_tree (fun _ _ => random_minus_half bits) (Compare a b neg zero ps)
     (stream_of (s :: v))).1 =
  (run_tree (fun _ _ => random_minus_half bits)
     (if s <? H then neg else if s =? H then zero else ps) (stream_of v)).1.
Proof.
  intros Hs. cbn [run_tree]. unfold random_minus_half, Math_random.
  cbn [samples pos stream_of nth]. fold D. rewrite (Z.mod_small s D) by done.
  pose proof den_double as HD.
  destruct (Z.ltb_spec (2 * s - D) 0), (Z.ltb_spec s H); try lia.
  - apply run_tree_same_stream, stream_tail.
  - destruct (Z.eqb_spec (2 * s - D) 0), (Z.eqb_spec s H); try lia;
      apply run_tree_same_stream, stream_tail.
Qed.

Lemma samples_split :
  seqZ 0 D = seqZ 0 H ++ [H] ++ seqZ (H + 1) (H - 1).
Proof.
  pose proof den_double as HD. pose proof half_pos as HH.
  replace D with (H + (1 + (H - 1))) by lia.
  rewrite seqZ_app by lia. f_equal. rewrite seqZ_app by lia. done.
Qed.

(** How often the tree [t] turns out [p], over the sample vectors of
    length [k]. *)
Lemma tree_count_step (p : list Person) (a b : Person) (neg zero ps : SortTree)
    (k : nat) :
  Z.of_nat (length (filter
     (fun v => (run_tree (fun _ _ => random_minus_half bits)
                  (Compare a b neg zero ps) (stream_of v)).1 = p)
     (all_samples bits (S k)))) =
  H * Z.of_nat (length (filter
        (fun v => (run_tree (fun _ _ => random_minus_half bits) neg (stream_of v)).1 = p)
        (all_samples bits k)))
  + Z.of_nat (length (filter
        (fun v => (run_tree (fun _ _ => random_minus_half bits) zero (stream_of v)).1 = p)
        (all_samples bits k)))
  + (H - 1) * Z.of_nat (length (filter
        (fun v => (run_tree (fun _ _ => random_minus_half bits) ps (stream_of v)).1 = p)
        (all_samples bits k))).
Proof.
  pose proof den_double as HD. pose proof half_pos as HH.
  cbn [all_samples]. fold D. rewrite samples_split.
  rewrite !map_app, !concat_app, !filter_app, !length_app.
  rewrite (count_first_sample _
             (fun v => (run_tree (fun _ _ => random_minus_half bits) neg
                          (stream_of v)).1 = p) (seqZ 0 H)).
  2:{ intros s v Hs%elem_of_seqZ. rewrite run_tree_first_sample by lia.
      destruct (Z.ltb_spec s H); [done | lia]. }
  rewrite (count_first_sample _
             (fun v => (run_tree (fun _ _ => random_minus_half bits) zero
                          (stream_of v)).1 = p) [H]).
  2:{ intros s v Hs%list_elem_of_singleton. subst s.
      rewrite run_tree_first_sample by lia.
      rewrite Z.ltb_irrefl, Z.eqb_refl. done. }
  rewrite (count_first_sample _
             (fun v => (run_tree (fun _ _ => random_minus_half bits) ps
                          (stream_of v)).1 = p) (seqZ (H + 1) (H - 1))).
  2:{ intros s v Hs%elem_of_seqZ. rewrite run_tree_first_sample by lia.
      destruct (Z.ltb_spec s H); [lia|].
      destruct (Z.eqb_spec s H); [lia | done]. }
  rewrite !Nat2Z.inj_add, !Nat2Z.inj_mul, !length_seqZ, !Z2Nat.id by lia.
  cbn [length]. lia.
Qed.

Lemma coin_count_range (p : list Person) (t : SortTree) (k : nat) :
  0 <= coin_count p t k <= 2 ^ Z.of_nat k.
Proof.
  revert k. induction t as [res | a b neg IHn zero _ ps IHp]; intros k.
  - cbn [coin_count]. destruct (decide (res = p)); lia.
  - destruct k as [|k]; cbn [coin_count]; [lia|].
    specialize (IHn k). specialize (IHp k).
    rewrite Nat2Z.inj_succ, Z.pow_succ_r by lia. lia.
Qed.

(** With samples of [bits] bits the random comparator is a fair coin up to
    one part in [D] for each answer. *)
Lemma tree_count_close (p : list Person) (t : SortTree) (k : nat) :
  (tree_depth t <= k)%nat ->
  let N := Z.of_nat (length (filter
             (fun v => (run_tree (fun _ _ => random_minus_half bits) t
                          (stream_of v)).1 = p)
             (all_samples bits k))) in
  0 <= N <= D ^ Z.of_nat k /\
  - Z.of_nat k * D ^ Z.of_nat k <=
    (N - H ^ Z.of_nat k * coin_count p t k) * D <=
    Z.of_nat k * D ^ Z.of_nat k.
Proof.
  pose proof den_double as HD. pose proof half_pos as HH.
  revert k. induction t as [res | a b neg IHn zero IHz ps IHp]; intros k Hk N.
  - assert (0 <= N <= D ^ Z.of_nat k) as HN.
    { subst N. rewrite <- length_all_samples.
      pose proof (count_le_length
        (fun v => (run_tree (fun _ _ => random_minus_half bits) (Sorted res)
                     (stream_of v)).1 = p) (all_samples bits k)). lia. }
    split; [done|].
    assert (N = H ^ Z.of_nat k * coin_count p (Sorted res) k) as ->.
    { subst N. cbn [coin_count run_tree fst].
      rewrite (count_constant _ (res = p)) by done.
      destruct (decide (res = p)); [|simpl; lia].
      rewrite length_all_samples, HD, Z.pow_mul_l. lia. }
    pose proof (den_pow_pos k). lia.
  - destruct k as [|k]; [cbn [tree_depth] in Hk; lia|].
    cbn [tree_depth] in Hk.
    specialize (IHn k ltac:(lia)). specialize (IHz k ltac:(lia)).
    specialize (IHp k ltac:(lia)). cbv zeta in IHn, IHz, IHp.
    subst N. rewrite tree_count_step.
    set (Nn := Z.of_nat (length (filter _ (all_samples bits k)))) in *.
    set (Nz := Z.of_nat (length (filter
                 (fun v => (run_tree _ zero (stream_of v)).1 = p) _))) in *.
    set (Np := Z.of_nat (length (filter
                 (fun v => (run_tree _ ps (stream_of v)).1 = p) _))) in *.
    cbn [coin_count]. rewrite den_pow_succ.
    rewrite (Nat2Z.inj_succ k), Z.pow_succ_r by lia.
    set (X := D ^ Z.of_nat k) in *. set (Y := H ^ Z.of_nat k) in *.
    set (cn := coin_count p neg k) in *. set (cp := coin_count p ps k) in *.
    destruct IHn as [Hn1 Hn2], IHz as [Hz1 _], IHp as [Hp1 Hp2].
    assert (0 < X) as HX by apply den_pow_pos.
    split; [nia|].
    assert (H * (- Z.of_nat k * X) <= H * ((Nn - Y * cn) * D) <= H * (Z.of_nat k * X))
      as Hn3 by (split; apply Z.mul_le_mono_nonneg_l; lia).
    assert (H * (- Z.of_nat k * X) <= H * ((Np - Y * cp) * D) <= H * (Z.of_nat k * X))
      as Hp3 by (split; apply Z.mul_le_mono_nonneg_l; lia).
    assert (0 <= Nz * D <= X * D /\ 0 <= Np * D <= X * D) as [Hz4 Hp4] by nia.
    rewrite HD in *. nia.
Qed.
End SampleCounting.

Lemma fact_multiple_of_3 (n : nat) :
  (3 <= n)%nat -> exists q, fact n = (3 * q)%nat.
Proof.
  induction n as [|n IH]; intros Hn; [lia|].
  destruct (decide (n = 2%nat)) as [->|Hne]; [by exists 2%nat|].
  destruct IH as [q Hq]; [lia|].
  exists (S n * q)%nat. change (fact (S n)) with (S n * fact n)%nat. lia.
Qed.

Lemma not_power_of_two (n : nat) (m : Z) (k : nat) :
  (3 <= n)%nat -> Z.of_nat (fact n) * m <> 2 ^ Z.of_nat k.
Proof.
  intros Hn Heq. destruct (fact_multiple_of_3 n Hn) as [q Hq].
  apply (pow2_not_multiple_of_3 k).
  assert (Z.of_nat (2 ^ k) = 3 * (Z.of_nat q * m)) as Hz.
  { rewrite Nat2Z.inj_pow. change (Z.of_nat 2) with 2. lia. }
  assert (Z.of_nat (2 ^ k) mod 3 = 0) as Hmod.
  { rewrite Hz, Z.mul_comm. apply Z.mod_mul. lia. }
  change 3 with (Z.of_nat 3) in Hmod. rewrite <- Nat2Z.inj_mod in Hmod. lia.
Qed.

Lemma tree_order_count (bits : nat) (engine : list Person -> SortTree)
    (k : nat) (names p : list Person) :
  order_count bits (shuffle bits (tree_sort engine)) k names p =
  length (filter
            (fun v => (run_tree (fun _ _ => random_minus_half bits) (engine names)
                         (stream_of v)).1 = p)
            (all_samples bits k)).
Proof. reflexivity. Qed.

(** C1: the shuffle of [generateGroups] is not uniform.  Whatever
    comparison sort the engine runs, given as the decision tree
    [engine names] of depth at most [k], the random comparator of line 185
    answers like a coin, so each order [p] of the roster comes out with a
    probability within [k / 2 ^ bits] of a multiple of [1 / 2 ^ k], and
    for a roster of three or more distinct participants no such multiple
    is one in [n!].  As soon as [2 ^ k * (n! * k + c) < 2 ^ bits], the
    probability of every order, multiplied by the number [n!] of orders,
    differs from one by more than [c / 2 ^ bits]: the shuffle is not
    uniform up to [c], for any tolerance [c] within this bound.  A
    Fisher-Yates shuffle of three participants is uniform up to [c = 2]
    ([fisher_yates_uniform]). *)
Theorem generateGroups_shuffle_not_uniform (bits : nat)
    (engine : list Person -> SortTree) (k : nat) (names : list Person) (c : Z) :
  (1 <= bits)%nat ->
  NoDup names ->
  (3 <= length names)%nat ->
  (tree_depth (engine names) <= k)%nat ->
  2 ^ Z.of_nat k * (Z.of_nat (fact (length names)) * Z.of_nat k + c)
    < 2 ^ Z.of_nat bits ->
  (forall p,
     c * random_den bits ^ Z.of_nat k <
     Z.abs (Z.of_nat (fact (length names))
            * Z.of_nat (order_count bits (shuffle bits (tree_sort engine)) k names p)
            - random_den bits ^ Z.of_nat k) * random_den bits) /\
  ~ uniform_up_to bits (shuffle bits (tree_sort engine)) k names c.
Proof.
  intros Hbits _ Hlen Hdepth Hsmall.
  assert (forall p,
     c * random_den bits ^ Z.of_nat k <
     Z.abs (Z.of_nat (fact (length names))
            * Z.of_nat (order_count bits (shuffle bits (tree_sort engine)) k names p)
            - random_den bits ^ Z.of_nat k) * random_den bits) as Hall.
  { intros p. rewrite tree_order_count.
    pose proof (tree_count_close bits Hbits p (engine names) k Hdepth)
      as [HN Hclose]. cbv zeta in HN, Hclose.
    pose proof (not_power_of_two (length names) (coin_count p (engine names) k) k Hlen)
      as Hne.
    pose proof (den_double bits Hbits) as HD.
    pose proof (half_pos bits Hbits) as HH.
    fold (random_den bits) in Hsmall.
    set (N := Z.of_nat (length (filter _ (all_samples bits k)))) in *.
    set (m := coin_count p (engine names) k) in *.
    set (F := Z.of_nat (fact (length names))) in *.
    set (D := random_den bits) in *.
    set (Hf := 2 ^ (Z.of_nat bits - 1)) in *.
    assert (D ^ Z.of_nat k = 2 ^ Z.of_nat k * Hf ^ Z.of_nat k) as HX
      by (by rewrite HD, Z.pow_mul_l).
    set (X := D ^ Z.of_nat k) in *. set (Y := Hf ^ Z.of_nat k) in *.
    set (P2 := 2 ^ Z.of_nat k) in *.
    assert (0 < Y) as HY by (apply Z.pow_pos_nonneg; lia).
    assert (0 <= F) as HF by lia.
    set (A := (N - Y * m) * D) in *.
    set (B := F * m - P2) in *.
    assert ((F * N - X) * D = F * A + (Y * D) * B) as Hsplit
      by (unfold A, B; rewrite HX; ring).
    assert (F * (- Z.of_nat k * X) <= F * A <= F * (Z.of_nat k * X)) as HFA
      by (split; apply Z.mul_le_mono_nonneg_l; lia).
    assert (Y * (P2 * (F * Z.of_nat k + c)) < Y * D) as HYD
      by (apply Z.mul_lt_mono_pos_l; lia).
    assert (0 < Y * D) as HYDpos by lia.
    assert (X * (F * Z.of_nat k + c) < Y * D) as HXD
      by (rewrite HX; lia).
    assert (0 < D) as HDpos by lia.
    assert (B <> 0) as HB0 by (unfold B; lia).
    clearbody A B X Y P2 N m F D Hf.
    destruct (Z.abs_spec (F * N - X)) as [[Hsign ->] | [Hsign ->]].
    - assert (0 <= (F * N - X) * D) as HT
        by (apply Z.mul_nonneg_nonneg; lia).
      destruct (Z_lt_le_dec B 1) as [Hlt|Hge].
      + assert ((Y * D) * B <= (Y * D) * (-1)) as HB2
          by (apply Z.mul_le_mono_nonneg_l; lia).
        lia.
      + assert ((Y * D) * 1 <= (Y * D) * B) as HB2
          by (apply Z.mul_le_mono_nonneg_l; lia).
        lia.
    - assert ((F * N - X) * D <= 0) as HT
        by (apply Z.mul_nonpos_nonneg; lia).
      destruct (Z_lt_le_dec B 1) as [Hlt|Hge].
      + assert ((Y * D) * B <= (Y * D) * (-1)) as HB2
          by (apply Z.mul_le_mono_nonneg_l; lia).
        lia.
      + assert ((Y * D) * 1 <= (Y * D) * B) as HB2
          by (apply Z.mul_le_mono_nonneg_l; lia).
        lia. }
  split; [exact Hall|].
  intros Hunif. specialize (Hunif names (reflexivity _)).
  specialize (Hall names). lia.
Qed.

(** Three participants, samples of 53 bits, binary insertion as the
    engine's sort: at most three comparisons. *)
Lemma generateGroups_shuffle_not_uniform_witness :
  (forall p,
     2 * random_den 53 ^ Z.of_nat 3 <
     Z.abs (Z.of_nat (fact (length [sampleA1; sampleB; sampleC]))
            * Z.of_nat (order_count 53 (shuffle 53 (tree_sort insertion_tree)) 3
                          [sampleA1; sampleB; sampleC] p)
            - random_den 53 ^ Z.of_nat 3) * random_den 53) /\
  ~ uniform_up_to 53 (shuffle 53 (tree_sort insertion_tree)) 3
      [sampleA1; sampleB; sampleC] 2.
Proof.
  apply (generateGroups_shuffle_not_uniform 53 insertion_tree 3
           [sampleA1; sampleB; sampleC] 2).
  - lia.
  - apply (bool_decide_unpack _). vm_compute. exact I.
  - simpl. lia.
  - simpl. lia.
  - vm_compute. reflexivity.
Defined.

(** The decision tree [insertion_tree] is the reference engine on three
    elements, whatever the comparator. *)
Lemma reference_sort_tree (S : Type) (comparefn : Person -> Person -> S -> Z * S)
    (a b c : Person) (s : S) :
  reference_sort S comparefn [a; b; c] s =
  tree_sort insertion_tree S comparefn [a; b; c] s.
Proof.
  unfold reference_sort, tree_sort, insertion_sort, insertion_tree, insert_third.
  simpl. destruct (comparefn b a s) as [v1 s1].
  destruct (v1 <? 0); simpl.
  - destruct (comparefn c a s1) as [v2 s2]. destruct (v2 <? 0); simpl.
    + destruct (comparefn c b s2) as [v3 s3]. by destruct (v3 <? 0), (v3 =? 0).
    + by destruct (v2 =? 0).
  - destruct (comparefn c b s1) as [v2 s2].
    destruct (v1 =? 0); destruct (v2 <? 0); simpl;
      try (by destruct (v2 =? 0));
      destruct (comparefn c a s2) as [v3 s3]; by destruct (v3 <? 0), (v3 =? 0).
Qed.


(** ** The Fisher-Yates shuffle is uniform *)

Section FisherYates.
Variable bits : nat.
Hypothesis bits_pos : (1 <= bits)%nat.

Let D := random_den bits.
Let H := 2 ^ (Z.of_nat bits - 1).

Lemma fisher_yates_same_stream (n : nat) (l : list Person) (r r' : Rng) :
  same_stream r r' ->
  (fisher_yates_from bits n l r).1 = (fisher_yates_from bits n l r').1.
Proof.
  revert l r r'. induction n as [|n IH]; intros l r r' Hrr; [done|].
  cbn [fisher_yates_from]. destruct n as [|n']; [done|].
  unfold random_index, Math_random.
  rewrite (same_stream_sample r r' Hrr).
  apply IH. by apply same_stream_next.
Qed.

Lemma fisher_yates_from_step (n : nat) (l : list Person) (r : Rng) :
  fisher_yates_from bits (S (S n)) l r =
  fisher_yates_from bits (S n)
    (swap l (S n) (Z.to_nat (random_index bits (Z.of_nat (S (S n))) r).1))
    (random_index bits (Z.of_nat (S (S n))) r).2.
Proof. reflexivity. Qed.

Lemma fisher_yates_first_sample (n : nat) (l : list Person) (s : Z)
    (v : list Z) (j : nat) :
  0 <= s < D ->
  Z.of_nat j * D <= s * Z.of_nat (S (S n)) < (Z.of_nat j + 1) * D ->
  (fisher_yates_from bits (S (S n)) l (stream_of (s :: v))).1 =
  (fisher_yates_from bits (S n) (swap l (S n) j) (stream_of v)).1.
Proof.
  intros Hs Hj. rewrite fisher_yates_from_step.
  unfold random_index, Math_random.
  cbn [samples pos stream_of nth fst snd]. fold D.
  rewrite (Z.mod_small s D) by done.
  assert (s * Z.of_nat (S (S n)) / D = Z.of_nat j) as ->.
  { symmetry.
    apply (Z.div_unique_pos _ _ _ (s * Z.of_nat (S (S n)) - Z.of_nat j * D)); lia. }
  rewrite Nat2Z.id. apply fisher_yates_same_stream, stream_tail.
Qed.

(** Two elements left: one sample, each half of its range one outcome. *)
Lemma fisher_yates_count2 (l p : list Person) (k : nat) :
  Z.of_nat (length (filter
     (fun v => (fisher_yates_from bits 2 l (stream_of v)).1 = p)
     (all_samples bits (S k)))) =
  H * (if decide (swap l 1 0 = p) then D ^ Z.of_nat k else 0)
  + H * (if decide (swap l 1 1 = p) then D ^ Z.of_nat k else 0).
Proof.
  pose proof (den_double bits bits_pos) as HD. fold D H in HD.
  pose proof (half_pos bits bits_pos) as HH. fold H in HH.
  cbn [all_samples]. fold D.
  replace (seqZ 0 D) with (seqZ 0 H ++ seqZ H H)
    by (rewrite HD; replace (2 * H) with (H + H) by lia;
        by rewrite seqZ_app by lia).
  rewrite map_app, concat_app, filter_app, length_app.
  rewrite (count_first_sample _ (fun _ => swap l 1 0 = p) (seqZ 0 H)).
  2:{ intros s v Hs%elem_of_seqZ.
      rewrite (fisher_yates_first_sample 0 l s v 0) by lia. done. }
  rewrite (count_first_sample _ (fun _ => swap l 1 1 = p) (seqZ H H)).
  2:{ intros s v Hs%elem_of_seqZ.
      rewrite (fisher_yates_first_sample 0 l s v 1) by lia. done. }
  rewrite !(count_constant _ _ (all_samples bits k) (fun _ => reflexivity _)).
  rewrite Nat2Z.inj_add, !Nat2Z.inj_mul, !length_seqZ, !Z2Nat.id by lia.
  pose proof (length_all_samples bits bits_pos k) as Hlen. fold D in Hlen.
  destruct (decide (swap l 1 0 = p)), (decide (swap l 1 1 = p));
    rewrite ?Hlen; simpl; lia.
Qed.

(** Three elements left: the first sample picks one of three outcomes, on
    three intervals whose lengths differ by one at most. *)
Lemma fisher_yates_count3 (l p : list Person) (k : nat) :
  Z.of_nat (length (filter
     (fun v => (fisher_yates_from bits 3 l (stream_of v)).1 = p)
     (all_samples bits (S (S k))))) =
  ((D + 2) / 3) *
    Z.of_nat (length (filter
       (fun v => (fisher_yates_from bits 2 (swap l 2 0) (stream_of v)).1 = p)
       (all_samples bits (S k))))
  + ((2 * D + 2) / 3 - (D + 2) / 3) *
    Z.of_nat (length (filter
       (fun v => (fisher_yates_from bits 2 (swap l 2 1) (stream_of v)).1 = p)
       (all_samples bits (S k))))
  + (D - (2 * D + 2) / 3) *
    Z.of_nat (length (filter
       (fun v => (fisher_yates_from bits 2 (swap l 2 2) (stream_of v)).1 = p)
       (all_samples bits (S k)))).
Proof.
  pose proof (den_double bits bits_pos) as HD. fold D H in HD.
  pose proof (half_pos bits bits_pos) as HH. fold H in HH.
  set (L1 := (D + 2) / 3). set (L2 := (2 * D + 2) / 3).
  assert (D <= 3 * L1 <= D + 2) as HL1
    by (unfold L1; pose proof (Z.div_mod (D + 2) 3 ltac:(lia));
        pose proof (Z.mod_pos_bound (D + 2) 3 ltac:(lia)); lia).
  assert (2 * D <= 3 * L2 <= 2 * D + 2) as HL2
    by (unfold L2; pose proof (Z.div_mod (2 * D + 2) 3 ltac:(lia));
        pose proof (Z.mod_pos_bound (2 * D + 2) 3 ltac:(lia)); lia).
  change (all_samples bits (S (S k)))
    with (concat (map (fun s => map (cons s) (all_samples bits (S k)))
                    (seqZ 0 D))).
  replace (seqZ 0 D) with (seqZ 0 L1 ++ seqZ L1 (L2 - L1) ++ seqZ L2 (D - L2)).
  2:{ replace D with (L1 + ((L2 - L1) + (D - L2))) at 2 by lia.
      rewrite (seqZ_app 0), (seqZ_app (0 + L1)) by lia.
      replace (0 + L1 + (L2 - L1)) with L2 by lia. done. }
  rewrite !map_app, !concat_app, !filter_app, !length_app.
  rewrite (count_first_sample _
             (fun v => (fisher_yates_from bits 2 (swap l 2 0) (stream_of v)).1 = p)
             (seqZ 0 L1)).
  2:{ intros s v Hs%elem_of_seqZ.
      rewrite (fisher_yates_first_sample 1 l s v 0) by lia. done. }
  rewrite (count_first_sample _
             (fun v => (fisher_yates_from bits 2 (swap l 2 1) (stream_of v)).1 = p)
             (seqZ L1 (L2 - L1))).
  2:{ intros s v Hs%elem_of_seqZ.
      rewrite (fisher_yates_first_sample 1 l s v 1) by lia. done. }
  rewrite (count_first_sample _
             (fun v => (fisher_yates_from bits 2 (swap l 2 2) (stream_of v)).1 = p)
             (seqZ L2 (D - L2))).
  2:{ intros s v Hs%elem_of_seqZ.
      rewrite (fisher_yates_first_sample 1 l s v 2) by lia. done. }
  rewrite !Nat2Z.inj_add, !Nat2Z.inj_mul, !length_seqZ, !Z2Nat.id by lia.
  lia.
Qed.

Lemma fisher_yates_bound (c3 N X : Z) :
  0 < X ->
  -2 <= 3 * c3 - D <= 2 ->
  N = c3 * (H * X) ->
  Z.abs (6 * N - D * (D * X)) * D <= 2 * (D * (D * X)).
Proof.
  pose proof (den_double bits bits_pos) as HD. fold D H in HD.
  pose proof (half_pos bits bits_pos) as HH. fold H in HH.
  intros HX Hc ->.
  replace (6 * (c3 * (H * X)) - D * (D * X)) with ((D * X) * (3 * c3 - D))
    by (rewrite HD; ring).
  assert (0 < D * X) as HW by nia.
  rewrite Z.abs_mul, (Z.abs_eq (D * X)) by lia.
  assert (Z.abs (3 * c3 - D) <= 2) as HE by lia.
  assert (D * X * Z.abs (3 * c3 - D) <= D * X * 2) as HWE
    by (apply Z.mul_le_mono_nonneg_l; lia).
  assert (D * X * Z.abs (3 * c3 - D) * D <= D * X * 2 * D)
    by (apply Z.mul_le_mono_nonneg_r; lia).
  lia.
Qed.

(** On three distinct participants the Fisher-Yates shuffle gives every
    order with a probability within [2 / (6 * D)] of one sixth. *)
Lemma fisher_yates_uniform (a b c : Person) (k : nat) :
  NoDup [a; b; c] ->
  uniform_up_to bits (fisher_yates bits) (S (S k)) [a; b; c] 2.
Proof.
  intros Hnd p Hp%orders3_complete.
  pose proof (den_double bits bits_pos) as HD. fold D H in HD.
  pose proof (half_pos bits bits_pos) as HH. fold H in HH.
  pose proof (den_pow_pos bits bits_pos k) as HX. fold D in HX.
  apply NoDup_cons in Hnd as [Hab Hnd]. apply NoDup_cons in Hnd as [Hbc _].
  apply not_elem_of_cons in Hab as [Hab Hac].
  apply not_elem_of_cons in Hac as [Hac _].
  apply not_elem_of_cons in Hbc as [Hbc _].
  assert (D <= 3 * ((D + 2) / 3) <= D + 2) as HL1
    by (pose proof (Z.div_mod (D + 2) 3 ltac:(lia));
        pose proof (Z.mod_pos_bound (D + 2) 3 ltac:(lia)); lia).
  assert (2 * D <= 3 * ((2 * D + 2) / 3) <= 2 * D + 2) as HL2
    by (pose proof (Z.div_mod (2 * D + 2) 3 ltac:(lia));
        pose proof (Z.mod_pos_bound (2 * D + 2) 3 ltac:(lia)); lia).
  unfold order_count, fisher_yates. cbn [length].
  change (Z.of_nat (fact 3)) with 6.
  rewrite fisher_yates_count3, !fisher_yates_count2.
  rewrite !(den_pow_succ bits bits_pos). fold D.
  set (X := D ^ Z.of_nat k) in *.
  set (L1 := (D + 2) / 3) in *. set (L2 := (2 * D + 2) / 3) in *.
  clearbody X L1 L2.
  repeat match goal with
         | |- context [swap ?l ?i ?j] =>
             let r := eval vm_compute in (swap l i j) in
             change (swap l i j) with r
         end.
  unfold orders3 in Hp.
  repeat (apply elem_of_cons in Hp as [->|Hp]);
    [ .. | by apply elem_of_nil in Hp];
    repeat match goal with
           | |- context [decide (?q = ?p)] =>
               first [ rewrite (decide_True (P := q = p)) by reflexivity
                     | rewrite (decide_False (P := q = p))
                         by (intros E; injection E; intros; congruence) ]
           end;
    first [ solve [apply (fisher_yates_bound L1); first [lia | ring]]
          | solve [apply (fisher_yates_bound (L2 - L1)); first [lia | ring]]
          | solve [apply (fisher_yates_bound (D - L2)); first [lia | ring]] ].
Qed.
End FisherYates.

(** On the roster of the witness above, with the same samples and the same
    bound, the Fisher-Yates shuffle is uniform. *)
Example fisher_yates_passes :
  uniform_up_to 53 (fisher_yates 53) 3 [sampleA1; sampleB; sampleC] 2.
Proof.
  apply (fisher_yates_uniform 53); [lia|].
  apply (bool_decide_unpack _). vm_compute. exact I.
Qed.

(** With a fair coin the reference engine gives two of the six orders in
    two cases of eight each, and the other four in one case each. *)
Example insertion_tree_coin_counts :
  map (fun p => coin_count p (insertion_tree [sampleA1; sampleB; sampleC]) 3)
    (orders3 sampleA1 sampleB sampleC) = [2; 2; 1; 1; 1; 1].
Proof. vm_compute. reflexivity. Qed.

(** An engine that looks for runs first compares up to four times on three
    elements; with a fair coin it gives the six orders in 6, 2, 1, 1, 1
    and 5 cases of sixteen. *)
Example run_detecting_tree_coin_counts :
  tree_depth (run_detecting_tree [sampleA1; sampleB; sampleC]) = 4%nat /\
  map (fun p => coin_count p (run_detecting_tree [sampleA1; sampleB; sampleC]) 4)
    (orders3 sampleA1 sampleB sampleC) = [6; 2; 1; 1; 1; 5].
Proof. split; vm_compute; reflexivity. Qed.

(** Samples of three bits, counted one by one over the 512 sample vectors
    of length three: the reference engine against Fisher-Yates.  Neither
    can split 512 in six equal parts, which is why [uniform_up_to] has a
    tolerance; Fisher-Yates is off by the rounding of [8 / 3], the
    comparator shuffle by a factor of two. *)
Example order_counts_three_bits :
  map (order_count 3 (shuffle 3 reference_sort) 3 [sampleA1; sampleB; sampleC])
    (orders3 sampleA1 sampleB sampleC) = [128; 128; 64; 64; 64; 64]%nat /\
  map (order_count 3 (fisher_yates 3) 3 [sampleA1; sampleB; sampleC])
    (orders3 sampleA1 sampleB sampleC) = [64; 64; 96; 96; 96; 96]%nat.
Proof. split; vm_compute; reflexivity. Qed.

(** * Further properties of the handlers *)

(** ** Text input *)

Section TextInput.
Implicit Types (s cur rest t w : string) (c : ascii).

Lemma append_nil_l s : EmptyString +:+ s = s.
Proof. reflexivity. Qed.

Lemma append_cons c s1 s2 : String c s1 +:+ s2 = String c (s1 +:+ s2).
Proof. reflexivity. Qed.

Lemma append_nil_r s : s +:+ EmptyString = s.
Proof. induction s as [|c s IH]; [done | by rewrite append_cons, IH]. Qed.

Lemma append_assoc s1 s2 s3 : (s1 +:+ s2) +:+ s3 = s1 +:+ (s2 +:+ s3).
Proof. induction s1 as [|c s1 IH]; [done | by rewrite !append_cons, IH]. Qed.

Lemma has_sep_append s1 s2 : has_sep (s1 +:+ s2) = has_sep s1 || has_sep s2.
Proof.
  induction s1 as [|c s1 IH]; [done|].
  rewrite append_cons. simpl. rewrite IH. by destruct (is_sep c).
Qed.

Lemma length_append s t :
  String.length (s +:+ t) = (String.length s + String.length t)%nat.
Proof.
  induction s as [|c s IH]; [done|]. rewrite append_cons. simpl. by rewrite IH.
Qed.

(** Induction on the length of a string. *)
Lemma string_length_ind (P : string -> Prop) :
  (forall s, (forall t, (String.length t < String.length s)%nat -> P t) -> P s) ->
  forall s, P s.
Proof.
  intros Hstep s. remember (String.length s) as n eqn:Hn.
  revert s Hn. induction n as [n IH] using lt_wf_ind. intros s ->.
  apply Hstep. intros t Ht. by apply (IH (String.length t)).
Qed.

(** The pieces of [split] hold no separator. *)
Lemma split_from_no_sep s cur p t :
  has_sep cur = false -> t ∈ split_from s cur p -> has_sep t = false.
Proof.
  revert cur p. induction s as [|c s IH]; intros cur p Hcur; simpl.
  - by intros ->%list_elem_of_singleton.
  - destruct (is_sep c) eqn:Hc.
    + destruct p.
      * by apply IH.
      * intros [->|Ht]%elem_of_cons; [done | by apply (IH EmptyString true)].
    + apply IH. rewrite has_sep_append. simpl. by rewrite Hcur, Hc.
Qed.

(** [strip_space] takes one white-space character from the front. *)
Lemma strip_space_Some s rest :
  strip_space s = Some rest ->
  exists w, is_space_char w = true /\ s = w +:+ rest.
Proof.
  destruct s as [|c1 [|c2 [|c3 r3]]]; simpl; [done|..].
  - destruct (is_space1 c1) eqn:E1; [|done].
    intros [= <-]. exists (String c1 EmptyString). by split.
  - destruct (is_space1 c1) eqn:E1.
    { intros [= <-]. exists (String c1 EmptyString). by split. }
    destruct (is_space2 c1 c2) eqn:E2; [|done].
    intros [= <-]. exists (String c1 (String c2 EmptyString)). by split.
  - destruct (is_space1 c1) eqn:E1.
    { intros [= <-]. exists (String c1 EmptyString). by split. }
    destruct (is_space2 c1 c2) eqn:E2.
    { intros [= <-]. exists (String c1 (String c2 EmptyString)). by split. }
    destruct (is_space3 c1 c2 c3) eqn:E3; [|done].
    intros [= <-]. exists (String c1 (String c2 (String c3 EmptyString))). by split.
Qed.

Lemma strip_space_shorter s rest :
  strip_space s = Some rest -> (String.length rest < String.length s)%nat.
Proof.
  intros (w & Hw & ->)%strip_space_Some. rewrite length_append.
  destruct w; [done | simpl; lia].
Qed.

Lemma byte_is_eq c n : byte_is c n = true -> nat_of_ascii c = n.
Proof. apply Nat.eqb_eq. Qed.

Lemma is_space2_first c1 c2 : is_space2 c1 c2 = true -> is_space1 c1 = false.
Proof.
  unfold is_space2, is_space1. intros [H%byte_is_eq _]%andb_true_iff.
  by rewrite H.
Qed.

Lemma is_space3_first c1 c2 c3 :
  is_space3 c1 c2 c3 = true -> is_space1 c1 = false /\ is_space2 c1 c2 = false.
Proof.
  unfold is_space3, is_space2, is_space1, byte_is. intros H.
  repeat (apply orb_true_iff in H as [H|H]);
    repeat (apply andb_true_iff in H as [H ?]);
    apply Nat.eqb_eq in H; rewrite H; done.
Qed.

(** A white-space character at the front is the one that [strip_space]
    takes. *)
Lemma strip_space_char w rest :
  is_space_char w = true -> strip_space (w +:+ rest) = Some rest.
Proof.
  destruct w as [|c1 [|c2 [|c3 [|c4 w]]]]; cbn [is_space_char]; try done.
  - intros H. change (String c1 EmptyString +:+ rest) with (String c1 rest).
    cbn [strip_space]. by rewrite H.
  - intros H. pose proof (is_space2_first _ _ H) as H1.
    change (String c1 (String c2 EmptyString) +:+ rest)
      with (String c1 (String c2 rest)).
    cbn [strip_space]. by rewrite H1, H.
  - intros H. destruct (is_space3_first _ _ _ H) as [H1 H2].
    change (String c1 (String c2 (String c3 EmptyString)) +:+ rest)
      with (String c1 (String c2 (String c3 rest))).
    cbn [strip_space]. by rewrite H1, H2, H.
Qed.

Lemma trimStart_unfold s :
  trimStart s = match strip_space s with
                | Some rest => trimStart rest
                | None => s
                end.
Proof.
  destruct s as [|c1 [|c2 [|c3 r3]]]; simpl; try done.
  - by destruct (is_space1 c1).
  - destruct (is_space1 c1); [done|]. by destruct (is_space2 c1 c2).
  - destruct (is_space1 c1); [done|]. destruct (is_space2 c1 c2); [done|].
    by destruct (is_space3 c1 c2 c3).
Qed.

(** [trimStart] returns a suffix that starts with no white space. *)
Lemma trimStart_suffix s : exists pre, s = pre +:+ trimStart s.
Proof.
  induction s as [s IH] using string_length_ind.
  rewrite trimStart_unfold. destruct (strip_space s) as [rest|] eqn:E.
  - destruct (strip_space_Some _ _ E) as (w & _ & ->).
    destruct (IH rest (strip_space_shorter _ _ E)) as [pre Hpre].
    exists (w +:+ pre). by rewrite append_assoc, <- Hpre.
  - by exists EmptyString.
Qed.

Lemma strip_trimStart s : strip_space (trimStart s) = None.
Proof.
  induction s as [s IH] using string_length_ind.
  rewrite trimStart_unfold. destruct (strip_space s) as [rest|] eqn:E; [|done].
  apply IH. by eapply strip_space_shorter.
Qed.

Lemma trimStart_fixed s : strip_space s = None -> trimStart s = s.
Proof. intros H. by rewrite trimStart_unfold, H. Qed.

Lemma trimStart_no_sep s : has_sep s = false -> has_sep (trimStart s) = false.
Proof.
  intros H. destruct (trimStart_suffix s) as [pre Hpre].
  rewrite Hpre, has_sep_append in H. by apply orb_false_iff in H as [_ ?].
Qed.

Lemma trimEnd_no_sep s : has_sep s = false -> has_sep (trimEnd s) = false.
Proof.
  induction s as [|c s IH]; [done|]. cbn [has_sep trimEnd].
  intros [Hc Hs]%orb_false_iff.
  destruct (is_space_char (String c (trimEnd s))); [done|].
  simpl. by rewrite Hc, IH.
Qed.

Lemma trim_no_sep s : has_sep s = false -> has_sep (trim s) = false.
Proof. intros H. by apply trimEnd_no_sep, trimStart_no_sep. Qed.

(** What [trimEnd] keeps starts as the string did. *)
Lemma trimEnd_cons_inv s c t :
  trimEnd s = String c t -> exists s', s = String c s' /\ t = trimEnd s'.
Proof.
  destruct s as [|c' s']; [done|]. cbn [trimEnd].
  destruct (is_space_char (String c' (trimEnd s'))); [done|].
  intros [= -> <-]. by exists s'.
Qed.

Lemma strip_trimEnd s : strip_space s = None -> strip_space (trimEnd s) = None.
Proof.
  intros H. destruct (trimEnd s) as [|c1 t1] eqn:E1; [done|].
  apply trimEnd_cons_inv in E1 as (r1 & -> & ->).
  simpl in H |- *. destruct (is_space1 c1); [done|].
  destruct (trimEnd r1) as [|c2 t2] eqn:E2; [done|].
  apply trimEnd_cons_inv in E2 as (r2 & -> & ->).
  destruct (is_space2 c1 c2); [done|].
  destruct (trimEnd r2) as [|c3 t3] eqn:E3; [done|].
  apply trimEnd_cons_inv in E3 as (r3 & -> & ->).
  by destruct (is_space3 c1 c2 c3).
Qed.

Lemma trimEnd_idem s : trimEnd (trimEnd s) = trimEnd s.
Proof.
  induction s as [|c s IH]; [done|]. cbn [trimEnd].
  destruct (is_space_char (String c (trimEnd s))) eqn:E; [done|].
  cbn [trimEnd]. by rewrite IH, E.
Qed.

(** [trim] is idempotent: what it returns is trimmed. *)
Lemma trim_idem s : trim (trim s) = trim s.
Proof.
  unfold trim.
  rewrite (trimStart_fixed (trimEnd (trimStart s)))
    by apply strip_trimEnd, strip_trimStart.
  apply trimEnd_idem.
Qed.

(** What the input handlers keep of the pieces. *)
Lemma kept_names_clean (pieces : list string) (n : string) :
  n ∈ List.filter nonempty (map trim pieces) -> clean_name n.
Proof.
  intros [Hn Hne]%List_filter_elem_of.
  apply list_elem_of_In, in_map_iff in Hn as (piece & <- & _). split.
  - intros E. by rewrite E in Hne.
  - apply trim_idem.
Qed.

Lemma kept_names_cons (piece : string) (pieces : list string) :
  List.filter nonempty (map trim (piece :: pieces)) =
  (if nonempty (trim piece) then [trim piece] else []) ++
  List.filter nonempty (map trim pieces).
Proof. simpl. by destruct (nonempty (trim piece)). Qed.

Lemma blank_trim s : blank s = true -> trim s = EmptyString.
Proof.
  unfold blank, trim. intros H%bool_decide_eq_true. by rewrite H.
Qed.

Lemma blank_app s t : blank s = true -> blank (s +:+ t) = blank t.
Proof.
  unfold blank. intros H%bool_decide_eq_true. f_equal.
  induction s as [s IH] using string_length_ind.
  rewrite trimStart_unfold in H. destruct (strip_space s) as [rest|] eqn:E.
  - destruct (strip_space_Some _ _ E) as (w & Hw & ->).
    rewrite append_assoc, (trimStart_unfold (w +:+ _)), strip_space_char by done.
    rewrite (IH rest); [done | by eapply strip_space_shorter | done].
  - by rewrite H, append_nil_l.
Qed.

Lemma blank_space_char w : is_space_char w = true -> blank w = true.
Proof.
  intros H. unfold blank. apply bool_decide_eq_true.
  rewrite <- (append_nil_r w), trimStart_unfold, strip_space_char by done. done.
Qed.

Lemma no_name_chars_unfold s :
  no_name_chars s =
  match s with
  | EmptyString => true
  | String c rest =>
      if is_sep c then no_name_chars rest
      else match strip_space s with
           | Some rest' => no_name_chars rest'
           | None => false
           end
  end.
Proof.
  destruct s as [|c1 [|c2 [|c3 r3]]]; simpl; try done.
  - destruct (is_sep c1); simpl; [done|]. by destruct (is_space1 c1).
  - destruct (is_sep c1); simpl; [done|]. destruct (is_space1 c1); [done|].
    by destruct (is_space2 c1 c2).
  - destruct (is_sep c1); simpl; [done|]. destruct (is_space1 c1); [done|].
    destruct (is_space2 c1 c2); [done|]. by destruct (is_space3 c1 c2 c3).
Qed.

(** Reading a separator-free string [s] moves it into the current piece. *)
Lemma split_from_sep_free s rest cur p :
  has_sep s = false ->
  split_from (s +:+ rest) cur p =
  split_from rest (cur +:+ s) (match s with EmptyString => p | _ => false end).
Proof.
  revert cur p. induction s as [|c s IH]; intros cur p.
  - intros _. by rewrite append_nil_l, append_nil_r.
  - simpl. intros [Hc Hs]%orb_false_iff.
    rewrite Hc, IH by done.
    rewrite append_assoc, append_cons, append_nil_l. by destruct s.
Qed.

Lemma is_sep_low c : is_sep c = true -> (nat_of_ascii c < 128)%nat.
Proof.
  unfold is_sep. intros [H|H]%orb_true_iff; apply bool_decide_eq_true in H;
    subst c; cbv; lia.
Qed.

Lemma high_byte_no_sep c : (128 <= nat_of_ascii c)%nat -> is_sep c = false.
Proof.
  intros H. destruct (is_sep c) eqn:E; [|done]. apply is_sep_low in E. lia.
Qed.

(** In a white-space character only the first byte can be a separator. *)
Lemma space_char_no_sep w :
  is_space_char w = true ->
  match w with String c _ => is_sep c = false | EmptyString => True end ->
  has_sep w = false.
Proof.
  destruct w as [|c1 [|c2 [|c3 [|c4 w']]]]; cbn [is_space_char]; try done.
  - intros _ H. simpl. by rewrite H.
  - intros Hw H. simpl. rewrite H. unfold is_space2 in Hw.
    apply andb_true_iff in Hw as [_ H2%byte_is_eq].
    rewrite high_byte_no_sep by lia. done.
  - intros Hw H. simpl. rewrite H.
    assert (128 <= nat_of_ascii c2 /\ 128 <= nat_of_ascii c3)%nat as [H2 H3].
    { unfold is_space3, byte_is in Hw.
      repeat match goal with
             | H : (_ =? _)%nat = true |- _ => apply Nat.eqb_eq in H
             | H : (_ <=? _)%nat = true |- _ => apply Nat.leb_le in H
             | H : (_ || _) = true |- _ => apply orb_true_iff in H as [H|H]
             | H : (_ && _) = true |- _ => apply andb_true_iff in H as [H ?]
             end; lia. }
    rewrite !high_byte_no_sep by lia. done.
Qed.

(** A text of white space and separators splits into blank pieces. *)
Lemma split_from_blank s cur p :
  blank cur = true -> no_name_chars s = true ->
  Forall (fun t => blank t = true) (split_from s cur p).
Proof.
  revert cur p. induction s as [s IH] using string_length_ind.
  intros cur p Hcur. rewrite no_name_chars_unfold.
  destruct s as [|c rest]; [intros _; by constructor|].
  destruct (is_sep c) eqn:Hsep.
  - intros Hs. cbn [split_from]. rewrite Hsep.
    destruct p; [apply IH; [simpl; lia | done | done]|].
    constructor; [done|]. apply IH; [simpl; lia | done | done].
  - destruct (strip_space (String c rest)) as [rest'|] eqn:E; [|done].
    intros Hs. destruct (strip_space_Some _ _ E) as (w & Hw & Hsplit).
    assert (has_sep w = false) as Hwsep.
    { apply space_char_no_sep; [done|].
      destruct w as [|c1 w']; [done|].
      rewrite append_cons in Hsplit. by injection Hsplit as -> _. }
    rewrite Hsplit, split_from_sep_free by done.
    apply IH.
    + by eapply strip_space_shorter.
    + rewrite blank_app by done. by apply blank_space_char.
    + done.
Qed.

Lemma kept_names_blank (pieces : list string) :
  Forall (fun t => blank t = true) pieces ->
  List.filter nonempty (map trim pieces) = [].
Proof.
  induction 1 as [|t pieces Ht _ IH]; [done|].
  rewrite kept_names_cons, IH, blank_trim by done. done.
Qed.

(** Cells without separators, joined by commas and split again, give the
    same names as the cells themselves. *)
Lemma kept_names_join (cells : list string) (p : bool) :
  Forall (fun cell => has_sep cell = false) cells ->
  List.filter nonempty (map trim (split_from (String.concat "," cells) EmptyString p)) =
  List.filter nonempty (map trim cells).
Proof.
  intros Hcells. revert p.
  induction Hcells as [|cell cells Hcell Hcells IH]; intros p; [done|].
  destruct cells as [|cell' cells'].
  - cbn [String.concat]. rewrite <- (append_nil_r cell) at 1.
    by rewrite split_from_sep_free.
  - change (String.concat "," (cell :: cell' :: cells')) with
      (cell +:+ String ","%char (String.concat "," (cell' :: cells'))).
    rewrite split_from_sep_free by done. cbn [split_from].
    change (is_sep ","%char) with true. cbv iota. rewrite append_nil_l.
    destruct cell as [|c cell].
    + destruct p.
      * rewrite IH. by rewrite (kept_names_cons EmptyString).
      * rewrite (kept_names_cons EmptyString (split_from _ _ _)), IH.
        by rewrite (kept_names_cons EmptyString (cell' :: cells')).
    + rewrite (kept_names_cons (String c cell) (split_from _ _ _)), IH.
      by rewrite (kept_names_cons (String c cell) (cell' :: cells')).
Qed.
End TextInput.

(** [trim()] on names in and out of ASCII: the bytes [bd a0] that end the
    encoding of a Chinese character and the byte [a0] that ends an
    accented letter stay, the ideographic space U+3000, the no-break space
    U+00A0 and the byte order mark U+FEFF go. *)
Example trim_examples :
  trim "  Bob Lee  " = "Bob Lee"%string /\
  trim "你" = "你"%string /\
  trim "Zoà" = "Zoà"%string /\
  trim "　Ann　" = "Ann"%string /\
  trim (String (ascii_of_nat 194) (String (ascii_of_nat 160) "Ann")) = "Ann"%string /\
  trim (String (ascii_of_nat 239) (String (ascii_of_nat 187)
          (String (ascii_of_nat 191) "Ann"))) = "Ann"%string /\
  String.length "你" = 3%nat.
Proof. repeat split; vm_compute; reflexivity. Qed.

Section InputHandlers.
Variable random_bits : nat.
Variable toString36 : Z -> string.

(** One participant per name, in order, and one sample per participant. *)
Lemma make_people_spec (tokens : list string) (r : Rng) :
  map name (make_people random_bits toString36 tokens r).1 = tokens /\
  (make_people random_bits toString36 tokens r).2 =
    mkRng (samples r) (pos r + length tokens).
Proof.
  revert r. induction tokens as [|n tokens IH]; intros r.
  - simpl. split; [done|]. destruct r as [f k]. simpl. f_equal. lia.
  - cbn [make_people]. unfold fresh_id, Math_random.
    destruct (IH (mkRng (samples r) (S (pos r)))) as [IH1 IH2].
    destruct (make_people random_bits toString36 tokens
                (mkRng (samples r) (S (pos r)))) as [ps r2].
    simpl in *. split; [by rewrite IH1|]. rewrite IH2. f_equal. lia.
Qed.

Lemma make_people_names (tokens : list string) (r : Rng) (P : string -> Prop) :
  Forall P tokens ->
  Forall (fun p => P (name p)) (make_people random_bits toString36 tokens r).1.
Proof.
  intros H. destruct (make_people_spec tokens r) as [Hn _].
  apply Forall_forall. intros p Hp. rewrite Forall_forall in H. apply H.
  rewrite <- Hn. by apply list_elem_of_In, in_map, list_elem_of_In.
Qed.

(** The id of the [k]-th participant made comes from the [k]-th sample. *)
Lemma make_people_ids (tokens : list string) (r : Rng) :
  map id (make_people random_bits toString36 tokens r).1 =
  map (fun k => String.substring 2 9
                  (toString36 (samples r (pos r + k)%nat mod random_den random_bits)))
    (seq 0 (length tokens)).
Proof.
  revert r. induction tokens as [|n tokens IH]; intros r; [done|].
  cbn [make_people]. unfold fresh_id, Math_random.
  specialize (IH (mkRng (samples r) (S (pos r)))).
  destruct (make_people random_bits toString36 tokens
              (mkRng (samples r) (S (pos r)))) as [ps r2].
  cbn [fst map id length seq samples pos] in *. rewrite Nat.add_0_r. f_equal.
  rewrite IH, <- seq_shift, map_map. apply map_ext. intros k.
  by rewrite Nat.add_succ_r.
Qed.

(** X1: [handleAddNames] appends to the roster one participant for each
    piece of the text (the text cut at the runs of commas and line breaks)
    that is not blank, in the order of the text, named by the trimmed
    piece; these names are not empty, trimmed and hold neither a comma nor
    a line break.  The [k]-th participant added takes its id from the
    [k]-th random sample; the text area is emptied and the winners and the
    groups are left alone. *)
Theorem handleAddNames_appends_clean (st : AppState) (r : Rng) :
  exists added,
    names (handleAddNames random_bits toString36 st r).1 = names st ++ added /\
    map name added = List.filter nonempty (map trim (split (inputText st))) /\
    map id added =
      map (fun k => String.substring 2 9
                      (toString36
                         (samples r (pos r + k)%nat mod random_den random_bits)))
        (seq 0 (length added)) /\
    Forall (fun p => clean_name (name p) /\ has_sep (name p) = false) added /\
    (handleAddNames random_bits toString36 st r).2 =
      mkRng (samples r) (pos r + length added) /\
    inputText (handleAddNames random_bits toString36 st r).1 = EmptyString /\
    winners (handleAddNames random_bits toString36 st r).1 = winners st /\
    groups (handleAddNames random_bits toString36 st r).1 = groups st.
Proof.
  unfold handleAddNames.
  set (tokens := List.filter nonempty (map trim (split (inputText st)))).
  pose proof (make_people_spec tokens r) as [Hnames Hrng].
  pose proof (make_people_ids tokens r) as Hids.
  assert (Forall (fun n => clean_name n /\ has_sep n = false) tokens) as Htok.
  { apply Forall_forall. intros n Hn. split; [by eapply kept_names_clean|].
    apply List_filter_elem_of in Hn as [Hn _].
    apply list_elem_of_In, in_map_iff in Hn as (piece & <- & Hp).
    apply trim_no_sep. apply list_elem_of_In in Hp.
    by apply (split_from_no_sep (inputText st) EmptyString false). }
  pose proof (make_people_names tokens r _ Htok) as Hclean.
  destruct (make_people random_bits toString36 tokens r) as [added r'].
  cbn [fst snd names setNames setInputText inputText winners groups] in *.
  assert (length added = length tokens) as Hlen
    by (by rewrite <- Hnames, length_map).
  exists added. rewrite Hlen. by repeat split.
Qed.

(** X2: a text made only of white space (that of [trim()], the Unicode
    spaces included), commas and line breaks adds nobody and takes no
    random sample; the text area is emptied. *)
Theorem handleAddNames_blank_text (st : AppState) (r : Rng) :
  no_name_chars (inputText st) = true ->
  handleAddNames random_bits toString36 st r = (setInputText EmptyString st, r).
Proof.
  intros Hblank. unfold handleAddNames, split.
  rewrite kept_names_blank by (by apply split_from_blank).
  simpl. rewrite app_nil_r. by destruct st.
Qed.

(** X3: names that are not empty, trimmed and free of commas and line
    breaks, typed with commas in between, are added as they are, in
    order. *)
Theorem handleAddNames_comma_list (tokens : list string) (st : AppState) (r : Rng) :
  Forall (fun t => clean_name t /\ has_sep t = false) tokens ->
  map name
    (names (handleAddNames random_bits toString36
              (setInputText (String.concat "," tokens) st) r).1) =
  map name (names st) ++ tokens.
Proof.
  intros Htok. unfold handleAddNames, split. cbn [inputText setInputText].
  rewrite kept_names_join by (eapply Forall_impl; [exact Htok | by intros ? [_ ?]]).
  assert (List.filter nonempty (map trim tokens) = tokens) as ->.
  { induction Htok as [|t tokens [[Hne Htrim] _] _ IH]; [done|].
    rewrite kept_names_cons, IH, Htrim.
    destruct t; [done | reflexivity]. }
  pose proof (make_people_spec tokens r) as [Hnames _].
  destruct (make_people random_bits toString36 tokens r) as [added r'].
  simpl in *. by rewrite map_app, Hnames.
Qed.

(** X4: a file of one row whose cells hold no comma and no line break adds
    the same participants, with the same ids, as the cells typed with
    commas in between. *)
Theorem handleFileUpload_row_as_text (cells : list string) (st : AppState) (r : Rng) :
  Forall (fun cell => has_sep cell = false) cells ->
  handleAddNames random_bits toString36
    (setInputText (String.concat "," cells) st) r =
  (setInputText EmptyString
     (handleFileUpload random_bits toString36 (Some [cells]) st r).1,
   (handleFileUpload random_bits toString36 (Some [cells]) st r).2).
Proof.
  intros Hcells. unfold handleAddNames, handleFileUpload, split.
  cbn [inputText setInputText concat]. rewrite app_nil_r.
  rewrite kept_names_join by done.
  by destruct (make_people random_bits toString36
                 (List.filter nonempty (map trim cells)) r).
Qed.

(** X5: without a file [handleFileUpload] changes nothing; with one it
    appends, cell after cell and row after row, one participant for each
    cell that is not blank, named by the trimmed cell, a name that is not
    empty and trimmed; the [k]-th participant added takes its id from the
    [k]-th random sample, and the text area, the winners and the groups
    are left alone. *)
Theorem handleFileUpload_appends_clean (st : AppState) (r : Rng) :
  handleFileUpload random_bits toString36 None st r = (st, r) /\
  forall data, exists added,
    names (handleFileUpload random_bits toString36 (Some data) st r).1 =
      names st ++ added /\
    map name added = List.filter nonempty (map trim (concat data)) /\
    map id added =
      map (fun k => String.substring 2 9
                      (toString36
                         (samples r (pos r + k)%nat mod random_den random_bits)))
        (seq 0 (length added)) /\
    Forall (fun p => clean_name (name p)) added /\
    (handleFileUpload random_bits toString36 (Some data) st r).2 =
      mkRng (samples r) (pos r + length added) /\
    inputText (handleFileUpload random_bits toString36 (Some data) st r).1 =
      inputText st /\
    winners (handleFileUpload random_bits toString36 (Some data) st r).1 =
      winners st /\
    groups (handleFileUpload random_bits toString36 (Some data) st r).1 =
      groups st.
Proof.
  split; [done|]. intros data. unfold handleFileUpload.
  set (tokens := List.filter nonempty (map trim (concat data))).
  pose proof (make_people_spec tokens r) as [Hnames Hrng].
  assert (Forall clean_name tokens) as Htok
    by (apply Forall_forall; intros n Hn; by eapply kept_names_clean).
  pose proof (make_people_names tokens r _ Htok) as Hclean.
  pose proof (make_people_ids tokens r) as Hids.
  destruct (make_people random_bits toString36 tokens r) as [added r'].
  cbn [fst snd names setNames inputText winners groups] in *.
  assert (length added = length tokens) as Hlen
    by (by rewrite <- Hnames, length_map).
  exists added. rewrite Hlen. by repeat split.
Qed.
End InputHandlers.

Lemma handleAddNames_blank_text_witness :
  handleAddNames 53 (reference_toString36 53)
    (setInputText " ,　,, " initialState) (stream_of []) =
  (setInputText EmptyString (setInputText " ,　,, " initialState), stream_of []).
Proof.
  apply (handleAddNames_blank_text 53 (reference_toString36 53)
           (setInputText " ,　,, " initialState) (stream_of [])).
  reflexivity.
Defined.

Lemma handleAddNames_comma_list_witness :
  map name
    (names (handleAddNames 53 (reference_toString36 53)
              (setInputText (String.concat "," ["Ann"; "Bob Lee"; "你好"]%string) initialState)
              (stream_of [])).1) =
  map name (names initialState) ++ ["Ann"; "Bob Lee"; "你好"]%string.
Proof.
  apply (handleAddNames_comma_list 53 (reference_toString36 53)
           ["Ann"; "Bob Lee"; "你好"]%string initialState (stream_of [])).
  repeat constructor; discriminate.
Defined.

Lemma handleFileUpload_row_as_text_witness :
  handleAddNames 53 (reference_toString36 53)
    (setInputText (String.concat "," ["Ann"; " "; "Bob Lee "]%string) initialState)
    (stream_of []) =
  (setInputText EmptyString
     (handleFileUpload 53 (reference_toString36 53)
        (Some [["Ann"; " "; "Bob Lee "]%string]) initialState (stream_of [])).1,
   (handleFileUpload 53 (reference_toString36 53)
      (Some [["Ann"; " "; "Bob Lee "]%string]) initialState (stream_of [])).2).
Proof.
  apply (handleFileUpload_row_as_text 53 (reference_toString36 53)
           ["Ann"; " "; "Bob Lee "]%string initialState (stream_of [])).
  repeat constructor.
Defined.

(** ** Duplicates: the flag, the button and the removal *)

Section DuplicateViews.
Implicit Types (l : list Person) (n : string).

Lemma occurrences_pos n l :
  (1 <= occurrences n l)%nat <-> exists p, p ∈ l /\ name p = n.
Proof.
  split.
  - intros H. destruct (decide (n ∈ map name l)) as [Hin|Hn].
    + apply list_elem_of_In, in_map_iff in Hin as (p & Hp & Hin).
      exists p. by rewrite list_elem_of_In.
    + apply occurrences_zero in Hn. lia.
  - intros (p & Hp & <-).
    destruct (occurrences (name p) l) eqn:E; [|lia].
    apply occurrences_zero in E. exfalso. apply E.
    by apply list_elem_of_In, in_map, list_elem_of_In.
Qed.

Lemma duplicates_nil_NoDup l : duplicates l = [] <-> NoDup (map name l).
Proof.
  rewrite listed_nil, NoDup_names_occurrences.
  split; intros H n; specialize (H n); rewrite duplicates_listed in *; lia.
Qed.

(** Without a name in [seen] and without a repeated name, the filter of
    [removeDuplicates] keeps everything. *)
Lemma removeDuplicates_filter_NoDup_id (seen : gset string) l :
  NoDup (map name l) -> (forall p, p ∈ l -> name p ∉ seen) ->
  removeDuplicates_filter seen l = l.
Proof.
  revert seen. induction l as [|q l IH]; intros seen Hnd Hseen; [done|].
  simpl in Hnd. apply NoDup_cons in Hnd as [Hq Hnd]. simpl.
  rewrite bool_decide_eq_false_2 by (apply Hseen; by left). simpl. f_equal.
  apply IH; [done|]. intros p Hp.
  rewrite elem_of_union, elem_of_singleton. intros [Heq|Hin].
  - apply Hq. rewrite <- Heq. by apply list_elem_of_In, in_map, list_elem_of_In.
  - apply (Hseen p); [by right | done].
Qed.

(** X6: the highlight of an entry and the array of duplicates agree: an
    entry is flagged exactly when its name is listed in [duplicates], and
    the button shows exactly when some entry of the roster is flagged. *)
Theorem isDuplicate_iff_listed l :
  (forall person, isDuplicate l person = true <-> name person ∈ duplicates l) /\
  (hasDuplicates l = true <-> exists person, person ∈ l /\ isDuplicate l person = true).
Proof.
  assert (forall person, isDuplicate l person = true <-> name person ∈ duplicates l)
    as Hflag.
  { intros person. unfold isDuplicate.
    rewrite Nat.ltb_lt, listed_pos, duplicates_listed. lia. }
  split; [exact Hflag|]. unfold hasDuplicates. rewrite Z.ltb_lt. split.
  - intros Hlen. destruct (duplicates l) as [|n ns] eqn:E; [simpl in Hlen; lia|].
    assert (n ∈ duplicates l) as Hn by (rewrite E; by left).
    apply listed_pos in Hn. rewrite duplicates_listed in Hn.
    destruct (proj1 (occurrences_pos n l) ltac:(lia)) as (p & Hp & <-).
    exists p. split; [done|]. apply Hflag. by left.
  - intros (p & _ & Hp). apply Hflag in Hp.
    destruct (duplicates l); [by apply elem_of_nil in Hp | simpl; lia].
Qed.

(** X7: [removeDuplicates] takes away as many entries as the button
    announces, and afterwards nothing is listed as a duplicate, the button
    is gone and no entry is flagged. *)
Theorem removeDuplicates_clears (st : AppState) :
  (length (names (removeDuplicates st)) + length (duplicates (names st)))%nat =
    length (names st) /\
  duplicates (names (removeDuplicates st)) = [] /\
  hasDuplicates (names (removeDuplicates st)) = false /\
  (forall person, isDuplicate (names (removeDuplicates st)) person = false).
Proof.
  assert (duplicates (names (removeDuplicates st)) = []) as Hnil
    by (apply duplicates_nil_NoDup, removeDuplicates_filter_NoDup).
  split; [|split; [|split]].
  - cbn [removeDuplicates names setNames].
    pose proof (duplicates_count_removed (names st)). lia.
  - exact Hnil.
  - unfold hasDuplicates. by rewrite Hnil.
  - intros person. unfold isDuplicate. apply Nat.ltb_ge.
    apply duplicates_nil_NoDup in Hnil.
    by apply NoDup_names_occurrences.
Qed.

(** X8: on a roster whose names are pairwise distinct (the button is not
    shown), [removeDuplicates] changes nothing. *)
Theorem removeDuplicates_without_duplicates (st : AppState) :
  hasDuplicates (names st) = false -> removeDuplicates st = st.
Proof.
  intros H. unfold hasDuplicates in H. apply Z.ltb_ge in H.
  assert (duplicates (names st) = []) as Hnil
    by (destruct (duplicates (names st)); [done | simpl in H; lia]).
  apply duplicates_nil_NoDup in Hnil.
  unfold removeDuplicates, uniqueNames.
  rewrite removeDuplicates_filter_NoDup_id; [by destruct st | done |].
  intros p _. apply not_elem_of_empty.
Qed.
End DuplicateViews.

Lemma removeDuplicates_without_duplicates_witness :
  removeDuplicates (setNames [sampleA1; sampleB; sampleC] initialState) =
  setNames [sampleA1; sampleB; sampleC] initialState.
Proof.
  apply (removeDuplicates_without_duplicates
           (setNames [sampleA1; sampleB; sampleC] initialState)).
  reflexivity.
Defined.

(** ** Removing by id *)

Section RemoveName.
Implicit Types (l : list Person) (i j : string).

Lemma filter_id_absent i l :
  i ∉ map id l -> List.filter (fun n => negb (str_eqb (id n) i)) l = l.
Proof.
  induction l as [|p l IH]; [done|]. simpl.
  intros [Hp Hl]%not_elem_of_cons.
  assert (str_eqb (id p) i = false) as -> by (apply str_eqb_neq; congruence).
  simpl. f_equal. by apply IH.
Qed.

Lemma NoDup_ids_inj l (p q : Person) :
  NoDup (map id l) -> p ∈ l -> q ∈ l -> id p = id q -> p = q.
Proof.
  induction l as [|a l IH]; [by intros _ ?%elem_of_nil|].
  simpl. intros [Ha Hnd]%NoDup_cons Hp Hq E.
  assert (forall x, x ∈ l -> id x ∈ map id l) as Hin
    by (intros x Hx; by apply list_elem_of_In, in_map, list_elem_of_In).
  apply elem_of_cons in Hp as [->|Hp]; apply elem_of_cons in Hq as [->|Hq].
  - done.
  - exfalso. apply Ha. rewrite E. by apply Hin.
  - exfalso. apply Ha. rewrite <- E. by apply Hin.
  - by apply IH.
Qed.

Lemma removeName_noop i (st : AppState) :
  i ∉ map id (names st) -> removeName i st = st.
Proof.
  intros H. unfold removeName. rewrite filter_id_absent by done. by destruct st.
Qed.

(** X9: removing an id that no participant carries changes nothing. *)
Theorem removeName_absent i (st : AppState) :
  i ∉ map id (names st) -> removeName i st = st.
Proof. apply removeName_noop. Qed.

(** X10: after [removeName] no participant carries the id; removing it
    again changes nothing; and two removals give the same roster in either
    order. *)
Theorem removeName_gone i j (st : AppState) :
  (i ∉ map id (names (removeName i st))) /\
  removeName i (removeName i st) = removeName i st /\
  removeName i (removeName j st) = removeName j (removeName i st).
Proof.
  assert (i ∉ map id (names (removeName i st))) as Hgone.
  { intros (p & Hid & Hp)%list_elem_of_In%in_map_iff.
    apply list_elem_of_In, List_filter_elem_of in Hp as [_ Hp].
    apply negb_true_iff, str_eqb_neq in Hp. done. }
  split; [exact Hgone|]. split.
  - by apply removeName_noop.
  - unfold removeName, setNames. cbn [names activeTab inputText winners isDrawing
      currentCandidate allowRepeat drawCount size groups]. f_equal.
    induction (names st) as [|p l IH]; [done|]. simpl.
    destruct (str_eqb (id p) j) eqn:Ej, (str_eqb (id p) i) eqn:Ei; simpl;
      rewrite ?Ej, ?Ei; simpl; by rewrite IH.
Qed.

(** X11: when the ids of the roster are pairwise distinct, removing the id
    of a participant takes away that participant and nobody else. *)
Theorem removeName_one_entry (p : Person) (st : AppState) :
  NoDup (map id (names st)) ->
  p ∈ names st ->
  (length (names (removeName (id p) st)) + 1)%nat = length (names st) /\
  (forall q, q ∈ names (removeName (id p) st) <-> q ∈ names st /\ q <> p).
Proof.
  intros Hnd Hp. cbn [removeName names setNames]. split.
  - induction (names st) as [|q l IH]; [by apply elem_of_nil in Hp|].
    simpl in Hnd. apply NoDup_cons in Hnd as [Hq Hnd]. simpl.
    apply elem_of_cons in Hp as [->|Hp].
    + rewrite str_eqb_refl. simpl. rewrite filter_id_absent by done. lia.
    + assert (str_eqb (id q) (id p) = false) as ->.
      { apply str_eqb_neq. intros E. apply Hq. rewrite E.
        by apply list_elem_of_In, in_map, list_elem_of_In. }
      simpl. rewrite <- (IH Hnd Hp). lia.
  - intros q. rewrite List_filter_elem_of, negb_true_iff, str_eqb_neq. split.
    + intros [Hq Hne]. split; [done | congruence].
    + intros [Hq Hne]. split; [done|]. intros E. apply Hne.
      by apply (NoDup_ids_inj (names st)).
Qed.
End RemoveName.

Lemma removeName_absent_witness :
  removeName "zz" (setNames [sampleA1; sampleB] initialState) =
  setNames [sampleA1; sampleB] initialState.
Proof.
  apply (removeName_absent "zz" (setNames [sampleA1; sampleB] initialState)).
  apply (bool_decide_unpack _). vm_compute. exact I.
Defined.

Lemma removeName_one_entry_witness :
  (length (names (removeName (id sampleB)
                    (setNames [sampleA1; sampleB; sampleC] initialState))) + 1)%nat =
    length (names (setNames [sampleA1; sampleB; sampleC] initialState)) /\
  (forall q,
     q ∈ names (removeName (id sampleB)
                  (setNames [sampleA1; sampleB; sampleC] initialState)) <->
     q ∈ names (setNames [sampleA1; sampleB; sampleC] initialState) /\ q <> sampleB).
Proof.
  apply (removeName_one_entry sampleB
           (setNames [sampleA1; sampleB; sampleC] initialState)).
  - apply (bool_decide_unpack _). vm_compute. exact I.
  - right. left.
Defined.

(** ** More on the lucky draw *)

Lemma index_Ok_elem {A : Type} (l : list A) (i : Z) (x : A) :
  index l i = Ok x -> x ∈ l.
Proof.
  unfold index. destruct (i <? 0); [done|].
  destruct (l !! Z.to_nat i) as [y|] eqn:E; [|done].
  intros [= <-]. by eapply list_elem_of_lookup_2.
Qed.

Lemma List_filter_filter {A : Type} (f g : A -> bool) (l : list A) :
  List.filter f (List.filter g l) = List.filter (fun x => f x && g x) l.
Proof.
  induction l as [|x l IH]; [done|]. simpl.
  destruct (g x) eqn:Eg; simpl; destruct (f x) eqn:Ef; simpl; by rewrite ?IH.
Qed.

Lemma List_filter_shorter {A : Type} (f : A -> bool) (l : list A) (x : A) :
  x ∈ l -> f x = false -> (length (List.filter f l) < length l)%nat.
Proof.
  induction l as [|y l IH]; [by intros ?%elem_of_nil|].
  intros [->|Hx]%elem_of_cons Hf; simpl.
  - rewrite Hf. pose proof (sublist_length _ _ (List_filter_sublist f l)). lia.
  - specialize (IH Hx Hf). destruct (f y); simpl; lia.
Qed.

Section DrawMore.
Variable random_bits : nat.

(** If the timer ends, it ends by putting a member of the pool in front of
    the winner record, showing its name and ending the drawing state. *)
Lemma run_timer_Ok (fuel : nat) (pool : list Person) (counter : Z)
    (st : AppState) (r : Rng) (w : Person) (st' : AppState) (r' : Rng) :
  run_timer random_bits fuel pool counter st r = Ok (w, st', r') ->
  w ∈ pool /\
  st' = setIsDrawing false
          (setCurrentCandidate (Some (name w)) (setWinners (w :: winners st) st)).
Proof.
  revert counter st r. induction fuel as [|fuel IH]; intros counter st r; [done|].
  cbn [run_timer]. unfold tick.
  destruct (random_index random_bits (Z.of_nat (length pool)) r) as [i1 r1].
  destruct (index pool i1) as [c| |]; cbn [mbind Res_bind]; [|done|done].
  destruct (steps <=? counter + 1).
  - destruct (random_index random_bits (Z.of_nat (length pool)) r1) as [i2 r2].
    destruct (index pool i2) as [w'| |] eqn:Ew; cbn [mbind Res_bind]; [|done|done].
    intros [= <- <- <-]. split; [by eapply index_Ok_elem | done].
  - cbn [mbind Res_bind]. intros H. apply IH in H as [Hw ->]. by split.
Qed.

Lemma draw_Ok_Winner (fuel : nat) (st : AppState) (r : Rng)
    (w : Person) (st' : AppState) (r' : Rng) :
  draw random_bits fuel st r = Ok (Winner w, st', r') ->
  w ∈ availableNames_of st /\
  st' = setIsDrawing false
          (setCurrentCandidate (Some (name w)) (setWinners (w :: winners st) st)).
Proof.
  unfold draw, startDraw.
  destruct (Z.of_nat (length (names st)) =? 0); [done|].
  destruct (Z.of_nat (length (availableNames_of st)) =? 0); [done|].
  destruct (run_timer random_bits fuel (availableNames_of st) 0
              (setIsDrawing true st) r) as [[[w1 st1] r1]| |] eqn:E;
    cbn [mbind Res_bind]; [|done|done].
  intros [= <- <- <-]. by apply run_timer_Ok in E as [Hw ->].
Qed.
End DrawMore.

Section DrawSamples.
Variable random_bits : nat.

(** The timer shows [steps - counter] candidates, one sample each, then
    takes one more sample and commits the pool member it points at. *)
Lemma run_timer_exact (fuel : nat) (pool : list Person) (counter : Z)
    (st : AppState) (r : Rng) :
  pool <> [] ->
  0 <= counter < steps ->
  steps - counter <= Z.of_nat fuel ->
  exists w,
    run_timer random_bits fuel pool counter st r =
      Ok (w,
          setIsDrawing false
            (setCurrentCandidate (Some (name w)) (setWinners (w :: winners st) st)),
          mkRng (samples r) (pos r + Z.to_nat (steps - counter) + 1)) /\
    index pool
      (samples r (pos r + Z.to_nat (steps - counter))%nat mod random_den random_bits
       * Z.of_nat (length pool) / random_den random_bits) = Ok w.
Proof.
  intros Hpool.
  assert (0 < Z.of_nat (length pool)) as Hlen
    by (destruct pool; [done | simpl; lia]).
  revert counter st r.
  induction fuel as [|fuel IH]; intros counter st r Hc Hfuel; [lia|].
  cbn [run_timer]. unfold tick.
  pose proof (random_index_range random_bits _ r Hlen) as Hi1.
  destruct (random_index random_bits (Z.of_nat (length pool)) r) as [i1 r1] eqn:E1.
  assert (r1 = mkRng (samples r) (S (pos r))) as ->
    by (unfold random_index, Math_random in E1; by injection E1 as _ <-).
  destruct (index_in_range pool i1 Hi1) as (c & -> & _). cbn [mbind Res_bind].
  destruct (Z.leb_spec steps (counter + 1)) as [Hdone|Hmore].
  - assert (Z.to_nat (steps - counter) = 1%nat) as -> by lia.
    pose proof (random_index_range random_bits _
                  (mkRng (samples r) (S (pos r))) Hlen) as Hi2.
    unfold random_index, Math_random in *. cbn [samples pos fst] in *.
    destruct (index_in_range pool _ Hi2) as (w & Hw & _).
    exists w. replace (pos r + 1)%nat with (S (pos r)) by lia.
    rewrite Hw. cbn [mbind Res_bind]. split; [|done].
    do 2 f_equal. f_equal. lia.
  - destruct (IH (counter + 1) (setCurrentCandidate (Some (name c)) st)
                (mkRng (samples r) (S (pos r)))) as (w & Hrun & Hw); [lia | lia |].
    exists w. cbn [mbind Res_bind]. rewrite Hrun. cbn [samples pos] in *.
    replace (S (pos r) + Z.to_nat (steps - (counter + 1)))%nat
      with (pos r + Z.to_nat (steps - counter))%nat in * by lia.
    split; [|exact Hw]. done.
Qed.

Lemma draw_exact (fuel : nat) (st : AppState) (r : Rng) :
  availableNames_of st <> [] ->
  (40 <= fuel)%nat ->
  exists w,
    draw random_bits fuel st r =
      Ok (Winner w,
          setIsDrawing false
            (setCurrentCandidate (Some (name w)) (setWinners (w :: winners st) st)),
          mkRng (samples r) (pos r + 41)) /\
    index (availableNames_of st)
      (samples r (pos r + 40)%nat mod random_den random_bits
       * Z.of_nat (length (availableNames_of st)) / random_den random_bits) = Ok w.
Proof.
  intros Hpool Hfuel. unfold draw, startDraw.
  assert (names st <> []) as Hnames.
  { intros E. apply Hpool. unfold availableNames_of. rewrite E.
    by destruct (allowRepeat st). }
  destruct (Z.of_nat (length (names st)) =? 0) eqn:E1;
    [by apply length_zero_nil in E1|].
  destruct (Z.of_nat (length (availableNames_of st)) =? 0) eqn:E2;
    [by apply length_zero_nil in E2|].
  destruct (run_timer_exact fuel (availableNames_of st) 0 (setIsDrawing true st) r)
    as (w & Hrun & Hw); [done | by change steps with 40 | change steps with 40; lia |].
  change (Z.to_nat (steps - 0)) with 40%nat in *.
  exists w. rewrite Hrun. cbn [mbind Res_bind]. split; [|exact Hw].
  do 2 f_equal. f_equal. lia.
Qed.

(** X12: a draw that finds candidates takes 41 random samples, 40 for the
    names it shows and one for the winner, and commits a member of the
    pool: it puts the winner in front of the winner record, shows its
    name, ends the drawing state and changes nothing else.  Which member
    wins depends on the last of the 41 samples only: two draws from the
    same state whose random sources agree on that sample commit the same
    winner and end in the same state, whatever the 40 samples before
    were. *)
Theorem draw_commits_last_sample (fuel : nat) (st : AppState) (r1 r2 : Rng) :
  availableNames_of st <> [] ->
  (40 <= fuel)%nat ->
  samples r1 (pos r1 + 40)%nat mod random_den random_bits =
    samples r2 (pos r2 + 40)%nat mod random_den random_bits ->
  exists w,
    w ∈ availableNames_of st /\
    draw random_bits fuel st r1 =
      Ok (Winner w,
          setIsDrawing false
            (setCurrentCandidate (Some (name w)) (setWinners (w :: winners st) st)),
          mkRng (samples r1) (pos r1 + 41)) /\
    draw random_bits fuel st r2 =
      Ok (Winner w,
          setIsDrawing false
            (setCurrentCandidate (Some (name w)) (setWinners (w :: winners st) st)),
          mkRng (samples r2) (pos r2 + 41)).
Proof.
  intros Hpool Hfuel Hlast.
  destruct (draw_exact fuel st r1) as (w1 & Hdraw1 & Hw1); [done | done |].
  destruct (draw_exact fuel st r2) as (w2 & Hdraw2 & Hw2); [done | done |].
  rewrite Hlast, Hw2 in Hw1. injection Hw1 as <-.
  exists w2. split; [by eapply index_Ok_elem | by split].
Qed.

(** X13: with repeats allowed a draw on a non-empty roster always commits
    a participant of the roster, also one that has won before: it never
    reports that no candidate is left. *)
Theorem draw_with_repeat (fuel : nat) (st : AppState) (r : Rng) :
  allowRepeat st = true ->
  names st <> [] ->
  (40 <= fuel)%nat ->
  exists w st' r',
    draw random_bits fuel st r = Ok (Winner w, st', r') /\
    w ∈ names st /\
    winners st' = w :: winners st /\
    names st' = names st.
Proof.
  intros Hrep Hnames Hfuel.
  assert (availableNames_of st = names st) as Hpool
    by (unfold availableNames_of; by rewrite Hrep).
  destruct (draw_exact fuel st r) as (w & Hdraw & Hw);
    [by rewrite Hpool | done |].
  eexists w, _, _. split; [exact Hdraw|].
  apply index_Ok_elem in Hw. rewrite Hpool in Hw. by repeat split.
Qed.

(** X14: when the pool has at most [2 ^ random_bits] members, each of them
    can win: for every member there is a random source on which the draw
    commits it. *)
Theorem draw_every_candidate_can_win (st : AppState) (p : Person) :
  p ∈ availableNames_of st ->
  Z.of_nat (length (availableNames_of st)) <= random_den random_bits ->
  exists r st' r', draw random_bits 40 st r = Ok (Winner p, st', r').
Proof.
  intros Hp Hsmall.
  apply list_elem_of_lookup in Hp as [j Hj].
  pose proof (lookup_lt_Some _ _ _ Hj) as Hjlt.
  set (len := Z.of_nat (length (availableNames_of st))) in *.
  set (den := random_den random_bits) in *.
  assert (0 < den) as Hden by apply random_den_pos.
  set (s := (Z.of_nat j * den + len - 1) / len).
  assert (0 < len) as Hlen by lia.
  assert (Z.of_nat j * den <= s * len < Z.of_nat j * den + len) as Hs.
  { pose proof (Z.div_mod (Z.of_nat j * den + len - 1) len ltac:(lia)) as Hdm.
    pose proof (Z.mod_pos_bound (Z.of_nat j * den + len - 1) len Hlen) as Hm.
    fold s in Hdm. nia. }
  assert (0 <= s < den) as Hrange by nia.
  assert (s * len / den = Z.of_nat j) as Hidx.
  { symmetry. apply (Z.div_unique_pos _ _ _ (s * len - Z.of_nat j * den)); lia. }
  destruct (draw_exact 40 st (mkRng (fun _ => s) O))
    as (w & Hdraw & Hw); [ | done | ].
  { intros E. rewrite E in Hj. by rewrite lookup_nil in Hj. }
  cbn [samples pos] in Hw. fold den len in Hw.
  rewrite Z.mod_small, Hidx in Hw by done.
  unfold index in Hw. destruct (Z.ltb_spec (Z.of_nat j) 0) as [?|_]; [lia|].
  rewrite Nat2Z.id, Hj in Hw. injection Hw as <-.
  by eexists _, _, _.
Qed.

Lemma pool_after_commit (st : AppState) (w : Person) :
  allowRepeat st = false ->
  w ∈ availableNames_of st ->
  availableNames_of
    (setIsDrawing false
       (setCurrentCandidate (Some (name w)) (setWinners (w :: winners st) st))) =
    List.filter (fun n => negb (str_eqb (id w) (id n))) (availableNames_of st) /\
  (length (availableNames_of
             (setIsDrawing false
                (setCurrentCandidate (Some (name w))
                   (setWinners (w :: winners st) st)))) <
   length (availableNames_of st))%nat.
Proof.
  intros Hrep Hw.
  assert (availableNames_of
            (setIsDrawing false
               (setCurrentCandidate (Some (name w)) (setWinners (w :: winners st) st))) =
          List.filter (fun n => negb (str_eqb (id w) (id n))) (availableNames_of st))
    as Hpool.
  { unfold availableNames_of.
    cbn [allowRepeat names winners setIsDrawing setCurrentCandidate setWinners].
    rewrite Hrep, List_filter_filter. apply filter_ext. intros n.
    cbn [find]. destruct (str_eqb (id w) (id n)); [|done].
    rewrite bool_decide_eq_true_2 by (by eexists). done. }
  split; [exact Hpool|]. rewrite Hpool.
  apply (List_filter_shorter _ _ w Hw). by rewrite str_eqb_refl.
Qed.

(** X15: without repeats, a draw takes the winner, that is every entry that
    carries the winner's id, out of the pool of the next draw, which is
    therefore strictly smaller. *)
Theorem draw_pool_shrinks (fuel : nat) (st : AppState) (r : Rng)
    (w : Person) (st' : AppState) (r' : Rng) :
  allowRepeat st = false ->
  draw random_bits fuel st r = Ok (Winner w, st', r') ->
  availableNames_of st' =
    List.filter (fun n => negb (str_eqb (id w) (id n))) (availableNames_of st) /\
  (length (availableNames_of st') < length (availableNames_of st))%nat.
Proof.
  intros Hrep Hdraw. apply draw_Ok_Winner in Hdraw as [Hw ->].
  by apply pool_after_commit.
Qed.

(** X16: without repeats, a draw keeps the ids of the winner record
    pairwise distinct. *)
Theorem draw_winner_ids_distinct (fuel : nat) (st : AppState) (r : Rng)
    (w : Person) (st' : AppState) (r' : Rng) :
  allowRepeat st = false ->
  NoDup (map id (winners st)) ->
  draw random_bits fuel st r = Ok (Winner w, st', r') ->
  NoDup (map id (winners st')).
Proof.
  intros Hrep Hnd Hdraw. apply draw_Ok_Winner in Hdraw as [Hw ->].
  cbn [winners setIsDrawing setCurrentCandidate setWinners map].
  apply NoDup_cons. split; [|done].
  apply availableNames_of_elem in Hw as [_ Hid]. by apply Hid.
Qed.
End DrawSamples.

Lemma draw_commits_last_sample_witness :
  exists w,
    w ∈ availableNames_of (setNames [sampleA1; sampleB; sampleC] initialState) /\
    draw 53 40 (setNames [sampleA1; sampleB; sampleC] initialState)
      (stream_of []) =
      Ok (Winner w,
          setIsDrawing false
            (setCurrentCandidate (Some (name w))
               (setWinners
                  (w :: winners (setNames [sampleA1; sampleB; sampleC] initialState))
                  (setNames [sampleA1; sampleB; sampleC] initialState))),
          mkRng (samples (stream_of [])) (pos (stream_of []) + 41)) /\
    draw 53 40 (setNames [sampleA1; sampleB; sampleC] initialState)
      (stream_of (repeat (2 ^ 52) 40)) =
      Ok (Winner w,
          setIsDrawing false
            (setCurrentCandidate (Some (name w))
               (setWinners
                  (w :: winners (setNames [sampleA1; sampleB; sampleC] initialState))
                  (setNames [sampleA1; sampleB; sampleC] initialState))),
          mkRng (samples (stream_of (repeat (2 ^ 52) 40)))
            (pos (stream_of (repeat (2 ^ 52) 40)) + 41)).
Proof.
  apply (draw_commits_last_sample 53 40
           (setNames [sampleA1; sampleB; sampleC] initialState)
           (stream_of []) (stream_of (repeat (2 ^ 52) 40))).
  - discriminate.
  - lia.
  - reflexivity.
Defined.

Lemma draw_with_repeat_witness :
  exists w st' r',
    draw 53 40
      (setAllowRepeat true
         (setWinners [sampleA1] (setNames [sampleA1] initialState)))
      (stream_of []) = Ok (Winner w, st', r') /\
    w ∈ names (setAllowRepeat true
                 (setWinners [sampleA1] (setNames [sampleA1] initialState))) /\
    winners st' =
      w :: winners (setAllowRepeat true
                      (setWinners [sampleA1] (setNames [sampleA1] initialState))) /\
    names st' =
      names (setAllowRepeat true
               (setWinners [sampleA1] (setNames [sampleA1] initialState))).
Proof.
  apply (draw_with_repeat 53 40
           (setAllowRepeat true
              (setWinners [sampleA1] (setNames [sampleA1] initialState)))
           (stream_of [])).
  - reflexivity.
  - discriminate.
  - lia.
Defined.

Lemma draw_every_candidate_can_win_witness :
  exists r st' r',
    draw 53 40 (setNames [sampleA1; sampleB; sampleC] initialState) r =
    Ok (Winner sampleC, st', r').
Proof.
  apply (draw_every_candidate_can_win 53
           (setNames [sampleA1; sampleB; sampleC] initialState) sampleC).
  - right. right. left.
  - vm_compute. discriminate.
Defined.

Lemma draw_pool_shrinks_witness :
  availableNames_of
    (setIsDrawing false
       (setCurrentCandidate (Some "B"%string)
          (setWinners [sampleB; sampleA1]
             (setWinners [sampleA1] (setNames [sampleA1; sampleB] initialState))))) =
    List.filter (fun n => negb (str_eqb (id sampleB) (id n)))
      (availableNames_of
         (setWinners [sampleA1] (setNames [sampleA1; sampleB] initialState))) /\
  (length
     (availableNames_of
        (setIsDrawing false
           (setCurrentCandidate (Some "B"%string)
              (setWinners [sampleB; sampleA1]
                 (setWinners [sampleA1]
                    (setNames [sampleA1; sampleB] initialState)))))) <
   length
     (availableNames_of
        (setWinners [sampleA1] (setNames [sampleA1; sampleB] initialState))))%nat.
Proof.
  apply (draw_pool_shrinks 53 40
           (setWinners [sampleA1] (setNames [sampleA1; sampleB] initialState))
           (stream_of []) sampleB _ (mkRng (samples (stream_of [])) 41)).
  - reflexivity.
  - vm_compute. reflexivity.
Defined.

Lemma draw_winner_ids_distinct_witness :
  NoDup
    (map id
       (winners
          (setIsDrawing false
             (setCurrentCandidate (Some "B"%string)
                (setWinners [sampleB; sampleA1]
                   (setWinners [sampleA1]
                      (setNames [sampleA1; sampleB] initialState))))))).
Proof.
  apply (draw_winner_ids_distinct 53 40
           (setWinners [sampleA1] (setNames [sampleA1; sampleB] initialState))
           (stream_of []) sampleB _ (mkRng (samples (stream_of [])) 41)).
  - reflexivity.
  - apply (bool_decide_unpack _). vm_compute. exact I.
  - vm_compute. reflexivity.
Defined.

(** ** More on grouping *)

Section GroupCount.
Implicit Types (gs : list (list Person)).

(** Full groups and a last one: the members add up. *)
Lemma chunks_total gs (size : Z) :
  (forall k g, gs !! k = Some g ->
     1 <= Z.of_nat (length g) <= size /\
     ((S k < length gs)%nat -> Z.of_nat (length g) = size)) ->
  gs <> [] ->
  exists lastg,
    last gs = Some lastg /\
    Z.of_nat (length (concat gs)) =
      (Z.of_nat (length gs) - 1) * size + Z.of_nat (length lastg).
Proof.
  induction gs as [|g gs IH]; intros Hshape Hne; [done|].
  destruct gs as [|g' gs'].
  - exists g. split; [done|]. simpl. rewrite app_nil_r. lia.
  - destruct IH as (lastg & Hlast & Htotal); [|done|].
    { intros k g0 Hk. destruct (Hshape (S k) g0 Hk) as [Hb Hfull].
      split; [done|]. intros Hlt. apply Hfull. simpl in *. lia. }
    exists lastg. split; [exact Hlast|].
    destruct (Hshape O g eq_refl) as [_ Hg]. specialize (Hg ltac:(simpl; lia)).
    change (concat (g :: g' :: gs')) with (g ++ concat (g' :: gs')).
    rewrite length_app, Nat2Z.inj_add, Htotal, Hg.
    change (length (g :: g' :: gs')) with (S (length (g' :: gs'))). lia.
Qed.

Variable random_bits : nat.
Variable array_sort :
  forall S : Type, (Person -> Person -> S -> Z * S) -> list Person -> S -> list Person * S.
Hypothesis array_sort_perm :
  forall S comparefn l s, (array_sort S comparefn l s).1 ≡ₚ l.

(** X17: on a non-empty roster and with a size of at least 1,
    [generateGroups] makes as many groups as the roster length divided by
    the size, rounded up; when the size divides the roster length, every
    group is full. *)
Theorem generateGroups_group_count (fuel : nat) (st : AppState) (r : Rng) :
  names st <> [] ->
  1 <= size st ->
  (length (names st) < fuel)%nat ->
  exists gs r',
    generateGroups random_bits array_sort fuel st r = Ok (setGroups gs st, r') /\
    Z.of_nat (length gs) = (Z.of_nat (length (names st)) + size st - 1) / size st /\
    (Z.of_nat (length (names st)) mod size st = 0 ->
     Forall (fun g => Z.of_nat (length g) = size st) gs).
Proof.
  intros Hne Hsize Hfuel. unfold generateGroups.
  destruct (Z.eqb_spec (Z.of_nat (length (names st))) 0) as [H0|Hn0].
  { destruct (names st); [done | simpl in H0; lia]. }
  pose proof (shuffle_perm random_bits array_sort array_sort_perm (names st) r)
    as Hperm.
  destruct (shuffle random_bits array_sort (names st) r) as [shuffled r'].
  simpl in Hperm.
  assert (length shuffled = length (names st)) as Hlen by (by rewrite Hperm).
  destruct (chunk_loop_spec fuel shuffled (size st) 0 [])
    as (gs & Hrun & Hcat & Hnil & Hshape); [lia | lia | lia |].
  simpl in Hrun. change (drop (Z.to_nat 0) shuffled) with shuffled in Hcat.
  rewrite Hrun. exists gs, r'. split; [done|].
  assert (gs <> []) as Hgs by (intros E; apply Hnil in E; lia).
  destruct (chunks_total gs (size st) Hshape Hgs) as (lastg & Hlast & Htotal).
  rewrite Hcat, Hlen in Htotal.
  assert (1 <= Z.of_nat (length lastg) <= size st) as Hlastg.
  { rewrite last_lookup in Hlast. by apply Hshape in Hlast as [? _]. }
  split.
  - apply (Z.div_unique_pos _ _ _ (Z.of_nat (length lastg) - 1)); lia.
  - intros Hmod. rewrite Htotal, Z.add_comm, Z_mod_plus_full in Hmod.
    assert (Z.of_nat (length lastg) = size st) as Hfull.
    { destruct (Z.eq_dec (Z.of_nat (length lastg)) (size st)) as [|Hneq]; [done|].
      rewrite Z.mod_small in Hmod by lia. lia. }
    apply Forall_lookup. intros k g Hk.
    destruct (decide (S k < length gs)%nat) as [Hlt|Hge].
    + by apply (Hshape k g Hk).
    + pose proof (lookup_lt_Some _ _ _ Hk).
      rewrite last_lookup in Hlast.
      replace (pred (length gs)) with k in Hlast by lia. congruence.
Qed.

(** X18: whatever is typed into the size field that is not a negative
    number (nothing, text, 0 or a positive number), [generateGroups] on a
    non-empty roster finishes and stores groups. *)
Theorem generateGroups_after_onSizeChange (fuel : nat) (parsed : option Z)
    (st : AppState) (r : Rng) :
  match parsed with Some v => 0 <= v | None => True end ->
  names st <> [] ->
  (length (names st) < fuel)%nat ->
  1 <= size (onSizeChange parsed st) /\
  exists gs r',
    generateGroups random_bits array_sort fuel (onSizeChange parsed st) r =
    Ok (setGroups gs (onSizeChange parsed st), r') /\
    gs <> [].
Proof.
  intros Hparsed Hne Hfuel.
  assert (1 <= size (onSizeChange parsed st)) as Hsize.
  { unfold onSizeChange. cbn [size setGroupSize].
    destruct parsed as [v|]; [|lia].
    destruct (Z.eqb_spec v 0); lia. }
  split; [exact Hsize|]. unfold generateGroups.
  change (names (onSizeChange parsed st)) with (names st).
  destruct (Z.eqb_spec (Z.of_nat (length (names st))) 0) as [H0|Hn0].
  { destruct (names st); [done | simpl in H0; lia]. }
  pose proof (shuffle_perm random_bits array_sort array_sort_perm (names st) r)
    as Hperm.
  destruct (shuffle random_bits array_sort (names st) r) as [shuffled r'].
  simpl in Hperm.
  assert (length shuffled = length (names st)) as Hlen by (by rewrite Hperm).
  destruct (chunk_loop_spec fuel shuffled (size (onSizeChange parsed st)) 0 [])
    as (gs & Hrun & _ & Hnil & _); [lia | lia | lia |].
  change ([] ++ gs) with gs in Hrun. rewrite Hrun. exists gs, r'. split; [done|].
  intros E. apply Hnil in E. lia.
Qed.
End GroupCount.

Lemma generateGroups_group_count_witness :
  exists gs r',
    generateGroups 53 reference_sort 6
      (setGroupSize 2 (setNames [sampleA1; sampleB; sampleC; sampleA2; sampleA3]
                         initialState)) (stream_of []) =
    Ok (setGroups gs
          (setGroupSize 2 (setNames [sampleA1; sampleB; sampleC; sampleA2; sampleA3]
                             initialState)), r') /\
    Z.of_nat (length gs) = (Z.of_nat 5 + 2 - 1) / 2 /\
    (Z.of_nat 5 mod 2 = 0 -> Forall (fun g => Z.of_nat (length g) = 2) gs).
Proof.
  apply (generateGroups_group_count 53 reference_sort reference_sort_perm 6
           (setGroupSize 2 (setNames [sampleA1; sampleB; sampleC; sampleA2; sampleA3]
                              initialState)) (stream_of [])).
  - discriminate.
  - simpl. lia.
  - simpl. lia.
Defined.

Lemma generateGroups_after_onSizeChange_witness :
  1 <= size (onSizeChange (Some 0) (setNames [sampleA1; sampleB] initialState)) /\
  exists gs r',
    generateGroups 53 reference_sort 3
      (onSizeChange (Some 0) (setNames [sampleA1; sampleB] initialState))
      (stream_of []) =
    Ok (setGroups gs
          (onSizeChange (Some 0) (setNames [sampleA1; sampleB] initialState)), r') /\
    gs <> [].
Proof.
  apply (generateGroups_after_onSizeChange 53 reference_sort reference_sort_perm 3
           (Some 0) (setNames [sampleA1; sampleB] initialState) (stream_of [])).
  - simpl. lia.
  - discriminate.
  - simpl. lia.
Defined.

(** ** The rows of the CSV export *)

Section CsvRows.
Implicit Types (gs : list (list Person)) (g : list Person) (i j : Z).

Lemma append_inj_r (s1 s2 t : string) : s1 +:+ t = s2 +:+ t -> s1 = s2.
Proof.
  revert s2. induction s1 as [|c s1 IH]; intros [|d s2] H.
  - done.
  - apply (f_equal String.length) in H.
    rewrite append_nil_l, length_append in H. simpl in H. lia.
  - apply (f_equal String.length) in H.
    rewrite append_nil_l, length_append in H. simpl in H. lia.
  - rewrite !append_cons in H. injection H as -> H. f_equal. by apply IH.
Qed.

(** Different groups get different labels. *)
Lemma groupLabel_inj i j : groupLabel i = groupLabel j -> i = j.
Proof.
  unfold groupLabel. intros H.
  apply String.app_inj, append_inj_r, pretty_Z_inj in H. lia.
Qed.

Lemma csv_rows_names gs i :
  map row_name
    (flatMap_index_from
       (fun group idx =>
          map (fun person => {| row_group := groupLabel idx; row_name := name person |})
            group) gs i) =
  map name (concat gs).
Proof.
  revert i. induction gs as [|g gs IH]; intros i; [done|].
  cbn [flatMap_index_from concat]. rewrite !map_app, IH. f_equal.
  rewrite map_map. done.
Qed.

(** The rows of the later groups do not bear the label of group [i]. *)
Lemma csv_rows_later_labels gs i j :
  i < j ->
  Forall (fun row => row_group row <> groupLabel i)
    (flatMap_index_from
       (fun group idx =>
          map (fun person => {| row_group := groupLabel idx; row_name := name person |})
            group) gs j).
Proof.
  revert j. induction gs as [|g gs IH]; intros j Hij; [by constructor|].
  cbn [flatMap_index_from]. apply Forall_app. split; [|apply IH; lia].
  apply Forall_forall. intros row (p & <- & _)%list_elem_of_In%in_map_iff.
  simpl. intros E%groupLabel_inj. lia.
Qed.

(** A list splits in one way only into a part where [P] holds and a part
    where it does not. *)
Lemma split_by_label {A : Type} (P : A -> Prop) (a1 a2 r1 r2 : list A) :
  Forall P a1 -> Forall P a2 ->
  Forall (fun x => ~ P x) r1 -> Forall (fun x => ~ P x) r2 ->
  a1 ++ r1 = a2 ++ r2 -> a1 = a2 /\ r1 = r2.
Proof.
  revert a2. induction a1 as [|x a1 IH]; intros [|y a2] H1 H2 Hr1 Hr2 E; simpl in E.
  - done.
  - exfalso. subst r1. apply Forall_cons in Hr1 as [Hy _], H2 as [? _]. done.
  - exfalso. subst r2. apply Forall_cons in Hr2 as [Hx _], H1 as [? _]. done.
  - injection E as -> E. apply Forall_cons in H1 as [_ H1], H2 as [_ H2].
    destruct (IH a2 H1 H2 Hr1 Hr2 E) as [-> ->]. done.
Qed.

Lemma csv_rows_inj gs1 gs2 i :
  Forall (fun g => g <> []) gs1 ->
  Forall (fun g => g <> []) gs2 ->
  flatMap_index_from
    (fun group idx =>
       map (fun person => {| row_group := groupLabel idx; row_name := name person |})
         group) gs1 i =
  flatMap_index_from
    (fun group idx =>
       map (fun person => {| row_group := groupLabel idx; row_name := name person |})
         group) gs2 i ->
  map (map name) gs1 = map (map name) gs2.
Proof.
  intros H1. revert gs2 i.
  induction H1 as [|g1 gs1 Hg1 _ IH]; intros gs2 i H2 E.
  - destruct H2 as [|g2 gs2 Hg2 _]; [done|].
    destruct g2; [done | discriminate E].
  - destruct H2 as [|g2 gs2 Hg2 H2].
    { destruct g1; [done | discriminate E]. }
    cbn [flatMap_index_from] in E.
    apply (split_by_label (fun row => row_group row = groupLabel i)) in E
      as [Ehead Etail].
    + cbn [map]. f_equal; [|by apply (IH gs2 (i + 1))].
      apply (f_equal (map row_name)) in Ehead. by rewrite !map_map in Ehead.
    + apply Forall_forall. by intros row (p & <- & _)%list_elem_of_In%in_map_iff.
    + apply Forall_forall. by intros row (p & <- & _)%list_elem_of_In%in_map_iff.
    + apply csv_rows_later_labels. lia.
    + apply csv_rows_later_labels. lia.
Qed.

Lemma lookup_map {A B : Type} (f : A -> B) (l : list A) (m : nat) :
  map f l !! m = f <$> (l !! m).
Proof.
  revert m. induction l as [|x l IH]; intros [|m]; simpl; try done.
Qed.

Lemma csv_rows_lookup gs i (k : nat) g (m : nat) (person : Person) :
  gs !! k = Some g -> g !! m = Some person ->
  flatMap_index_from
    (fun group idx =>
       map (fun person => {| row_group := groupLabel idx; row_name := name person |})
         group) gs i
    !! (length (concat (take k gs)) + m)%nat =
  Some {| row_group := groupLabel (i + Z.of_nat k); row_name := name person |}.
Proof.
  revert i k. induction gs as [|g0 gs IH]; intros i k Hk Hm;
    [by rewrite lookup_nil in Hk|].
  cbn [flatMap_index_from]. destruct k as [|k]; simpl in Hk.
  - injection Hk as ->. cbn [take concat length]. rewrite lookup_app_l.
    + change (0 + m)%nat with m. rewrite lookup_map, Hm.
      simpl. do 3 f_equal. lia.
    + rewrite length_map. apply lookup_lt_Some in Hm. simpl. lia.
  - cbn [take concat]. rewrite length_app, <- Nat.add_assoc.
    rewrite lookup_app_r by (rewrite length_map; lia).
    rewrite length_map.
    replace (length g0 + (length (concat (take k gs)) + m) - length g0)%nat
      with (length (concat (take k gs)) + m)%nat by lia.
    rewrite (IH (i + 1) k Hk Hm). do 3 f_equal. lia.
Qed.

(** X19: nothing is exported while there are no groups; otherwise the
    export has one row per group member, group after group and in the
    order within each group, and the row of a member bears the label of
    its group, whose number is the group's position counted from 1. *)
Theorem downloadGroupsCSV_rows (st : AppState) :
  (downloadGroupsCSV st = None <-> groups st = []) /\
  (forall rows, downloadGroupsCSV st = Some rows ->
     map row_name rows = map name (concat (groups st)) /\
     forall (k : nat) g (m : nat) person,
       groups st !! k = Some g -> g !! m = Some person ->
       rows !! (length (concat (take k (groups st))) + m)%nat =
       Some {| row_group := groupLabel (Z.of_nat k); row_name := name person |}).
Proof.
  unfold downloadGroupsCSV. split.
  - destruct (Z.of_nat (length (groups st)) =? 0) eqn:E.
    + apply length_zero_nil in E. done.
    + split; [done|]. intros Hnil. rewrite Hnil in E. done.
  - intros rows. destruct (Z.of_nat (length (groups st)) =? 0); [done|].
    intros [= <-]. split; [apply csv_rows_names|].
    intros k g m person Hk Hm. unfold csvData.
    by rewrite (csv_rows_lookup (groups st) 0 k g m person Hk Hm).
Qed.

(** X20: the export loses nothing of the grouping: two group sets without
    an empty group that export the same rows hold, group by group, the
    same names in the same order. *)
Theorem csvData_determines_groups gs1 gs2 :
  Forall (fun g => g <> []) gs1 ->
  Forall (fun g => g <> []) gs2 ->
  csvData gs1 = csvData gs2 ->
  map (map name) gs1 = map (map name) gs2.
Proof. intros H1 H2 E. by apply (csv_rows_inj gs1 gs2 0). Qed.
End CsvRows.

(** ** What the page keeps true *)

Lemma Forall_sublist_of {A : Type} (P : A -> Prop) (l k : list A) :
  sublist l k -> Forall P k -> Forall P l.
Proof.
  induction 1 as [|x l k _ IH|x l k _ IH]; intros H.
  - constructor.
  - apply Forall_cons in H as [Hx H]. constructor; [done | by apply IH].
  - apply Forall_cons in H as [_ H]. by apply IH.
Qed.

Lemma chunk_loop_mono (fuel fuel' : nat) (shuffled : list Person) (size i : Z)
    (result gs : list (list Person)) :
  chunk_loop fuel shuffled size i result = Some gs ->
  (fuel <= fuel')%nat ->
  chunk_loop fuel' shuffled size i result = Some gs.
Proof.
  revert fuel' i result. induction fuel as [|fuel IH]; intros fuel' i result; [done|].
  intros H Hle. destruct fuel' as [|fuel']; [lia|]. simpl in *.
  destruct (i <? Z.of_nat (length shuffled)); [|done].
  apply IH; [done | lia].
Qed.

(** When the loop ends on a non-empty array, the size was at least 1 and
    the groups are the chunks of the array. *)
Lemma chunk_loop_Some (fuel : nat) (shuffled : list Person) (size : Z)
    (gs : list (list Person)) :
  shuffled <> [] ->
  chunk_loop fuel shuffled size 0 [] = Some gs ->
  1 <= size /\ concat gs = shuffled /\ Forall (fun g => g <> []) gs.
Proof.
  intros Hne Hrun.
  assert (0 < Z.of_nat (length shuffled)) as Hlen
    by (destruct shuffled; [done | simpl; lia]).
  destruct (Z_lt_le_dec size 1) as [Hsmall|Hsize].
  { rewrite chunk_loop_diverges in Hrun by done. done. }
  split; [done|].
  destruct (chunk_loop_spec (fuel + S (length shuffled)) shuffled size 0 [])
    as (gs' & Hrun' & Hcat & _ & Hshape); [lia | lia | lia |].
  apply (chunk_loop_mono fuel (fuel + S (length shuffled))) in Hrun; [|lia].
  rewrite Hrun in Hrun'. injection Hrun' as ->. simpl in *.
  split; [exact Hcat|]. apply Forall_lookup. intros k g Hk Hg.
  apply Hshape in Hk as [Hk _]. rewrite Hg in Hk. simpl in Hk. lia.
Qed.

Lemma mockNames_clean : Forall clean_name mockNames.
Proof. unfold mockNames. repeat constructor; discriminate. Qed.

Lemma mockNames_NoDup : NoDup mockNames.
Proof. apply (bool_decide_unpack _). vm_compute. exact I. Qed.

Lemma page_invariant_initial : page_invariant initialState.
Proof. repeat split; try constructor. discriminate. Qed.

Section PageInvariant.
Variable random_bits : nat.
Variable toString36 : Z -> string.
Variable array_sort :
  forall S : Type, (Person -> Person -> S -> Z * S) -> list Person -> S -> list Person * S.
Hypothesis array_sort_perm :
  forall S comparefn l s, (array_sort S comparefn l s).1 ≡ₚ l.

Lemma handleEvent_invariant (fuel : nat) (e : Event) (st : AppState) (r : Rng)
    (st' : AppState) (r' : Rng) :
  page_invariant st ->
  handleEvent random_bits toString36 array_sort fuel e st r = Ok (st', r') ->
  page_invariant st'.
Proof.
  intros (Hnames & Hwin & Hgroups & Hsize).
  destruct e; cbn [handleEvent].
  - intros [= <- <-]. by repeat split.
  - unfold handleAddNames.
    pose proof (make_people_names random_bits toString36
                  (List.filter nonempty (map trim (split (inputText st)))) r
                  clean_name) as Hnew.
    destruct (make_people random_bits toString36 _ r) as [added r1].
    intros [= <- <-].
    repeat split; try done. cbn [fst names setNames setInputText].
    apply Forall_app. split; [done|]. apply Hnew.
    apply Forall_forall. intros n Hn. by eapply kept_names_clean.
  - unfold handleFileUpload. destruct file as [data|];
      [|intros [= <- <-]; by repeat split].
    pose proof (make_people_names random_bits toString36
                  (List.filter nonempty (map trim (concat data))) r
                  clean_name) as Hnew.
    destruct (make_people random_bits toString36 _ r) as [added r1].
    intros [= <- <-].
    repeat split; try done. cbn [fst names setNames].
    apply Forall_app. split; [done|]. apply Hnew.
    apply Forall_forall. intros n Hn. by eapply kept_names_clean.
  - unfold loadMockData.
    pose proof (make_people_names random_bits toString36 mockNames r
                  clean_name mockNames_clean) as Hnew.
    destruct (make_people random_bits toString36 mockNames r) as [people r1].
    intros [= <- <-]. by repeat split.
  - intros [= <- <-]. repeat split; try done. cbn [removeName names setNames].
    eapply Forall_sublist_of; [apply List_filter_sublist | done].
  - intros [= <- <-]. repeat split; try done.
    cbn [removeDuplicates names setNames]. unfold uniqueNames.
    eapply Forall_sublist_of; [apply removeDuplicates_filter_sublist | done].
  - intros [= <- <-]. destruct confirmed; [|done].
    repeat split; try done; try constructor.
  - intros [= <- <-]. by repeat split.
  - destruct (draw random_bits fuel st r) as [[[res st1] r1]| |] eqn:Hdraw;
      cbn [mbind Res_bind]; [|done|done].
    intros [= <- <-]. destruct res as [|m|w].
    + unfold draw, startDraw in Hdraw.
      destruct (Z.of_nat (length (names st)) =? 0); [by injection Hdraw as <- _|].
      destruct (Z.of_nat (length (availableNames_of st)) =? 0); [done|].
      by destruct (run_timer random_bits fuel (availableNames_of st) 0
                     (setIsDrawing true st) r) as [[[? ?] ?]| |].
    + unfold draw, startDraw in Hdraw.
      destruct (Z.of_nat (length (names st)) =? 0); [done|].
      destruct (Z.of_nat (length (availableNames_of st)) =? 0);
        [by injection Hdraw as _ <- _|].
      by destruct (run_timer random_bits fuel (availableNames_of st) 0
                     (setIsDrawing true st) r) as [[[? ?] ?]| |].
    + apply draw_Ok_Winner in Hdraw as [Hw ->].
      repeat split; try done.
      cbn [winners setIsDrawing setCurrentCandidate setWinners].
      constructor; [|done].
      apply availableNames_of_elem in Hw as [Hw _].
      by apply (proj1 (Forall_forall _ _) Hnames).
  - intros [= <- <-]. repeat split; try done; try constructor.
  - intros [= <- <-]. repeat split; try done.
    unfold onSizeChange. cbn [size setGroupSize].
    destruct parsed as [v|]; [|done]. by destruct (Z.eqb_spec v 0).
  - unfold generateGroups.
    destruct (Z.of_nat (length (names st)) =? 0) eqn:E0.
    { intros [= <- <-]. by repeat split. }
    pose proof (shuffle_perm random_bits array_sort array_sort_perm (names st) r)
      as Hperm.
    destruct (shuffle random_bits array_sort (names st) r) as [shuffled r1].
    simpl in Hperm.
    destruct (chunk_loop fuel shuffled (size st) 0 []) as [gs|] eqn:Hrun; [|done].
    intros [= <- <-].
    assert (shuffled <> []) as Hne.
    { intros ->. apply Permutation_nil_l in Hperm.
      rewrite <- Hperm in E0. done. }
    destruct (chunk_loop_Some fuel shuffled (size st) gs Hne Hrun)
      as (_ & Hcat & Hnonempty).
    repeat split; try done. cbn [groups setGroups].
    apply Forall_forall. intros g Hg. split.
    + by apply (proj1 (Forall_forall _ _) Hnonempty).
    + apply Forall_forall. intros p Hp.
      assert (p ∈ names st) as Hin.
      { rewrite <- Hperm, <- Hcat. apply list_elem_of_In, in_concat.
        exists g. by rewrite <- !list_elem_of_In. }
      by apply (proj1 (Forall_forall _ _) Hnames).
  - intros [= <- <-]. by repeat split.
Qed.

(** X21: whatever the events of a session and their order, as long as the
    handlers finish: every name in the roster, in the winner record and in
    the groups is not empty and trimmed, no group is empty, and the group
    size is not 0. *)
Theorem page_invariant_kept (fuel : nat) (es : list Event) (st : AppState) (r : Rng)
    (st' : AppState) (r' : Rng) :
  page_invariant st ->
  runEvents random_bits toString36 array_sort fuel es st r = Ok (st', r') ->
  page_invariant st'.
Proof.
  revert st r. induction es as [|e es IH]; intros st r Hinv; cbn [runEvents].
  - by intros [= <- <-].
  - destruct (handleEvent random_bits toString36 array_sort fuel e st r)
      as [[st1 r1]| |] eqn:He; cbn [mbind Res_bind]; [|done|done].
    apply IH. by eapply handleEvent_invariant.
Qed.

(** X22: grouping, then exporting: on a non-empty roster and with a size of
    at least 1 the export is there, with one row per participant of the
    roster, and its names are the names of the roster, rearranged. *)
Theorem generateGroups_then_download (fuel : nat) (st : AppState) (r : Rng) :
  names st <> [] ->
  1 <= size st ->
  (length (names st) < fuel)%nat ->
  exists st' r' rows,
    generateGroups random_bits array_sort fuel st r = Ok (st', r') /\
    downloadGroupsCSV st' = Some rows /\
    map row_name rows ≡ₚ map name (names st) /\
    length rows = length (names st).
Proof.
  intros Hne Hsize Hfuel. unfold generateGroups.
  destruct (Z.eqb_spec (Z.of_nat (length (names st))) 0) as [H0|Hn0].
  { destruct (names st); [done | simpl in H0; lia]. }
  pose proof (shuffle_perm random_bits array_sort array_sort_perm (names st) r)
    as Hperm.
  destruct (shuffle random_bits array_sort (names st) r) as [shuffled r1].
  simpl in Hperm.
  assert (length shuffled = length (names st)) as Hlen by (by rewrite Hperm).
  destruct (chunk_loop_spec fuel shuffled (size st) 0 [])
    as (gs & Hrun & Hcat & Hnil & _); [lia | lia | lia |].
  simpl in Hrun. change (drop (Z.to_nat 0) shuffled) with shuffled in Hcat.
  rewrite Hrun. exists (setGroups gs st), r1, (csvData gs).
  assert (gs <> []) as Hgs by (intros E; apply Hnil in E; lia).
  assert (map row_name (csvData gs) = map name shuffled) as Hrows
    by (unfold csvData; by rewrite csv_rows_names, Hcat).
  split; [done|]. split; [|split].
  - unfold downloadGroupsCSV. cbn [groups setGroups].
    destruct (Z.of_nat (length gs) =? 0) eqn:E; [|done].
    by apply length_zero_nil in E.
  - rewrite Hrows. by apply Permutation_map.
  - rewrite <- Hlen, <- (length_map name shuffled), <- Hrows. by rewrite length_map.
Qed.

(** X23: [loadMockData] replaces the roster, whatever it was, by twenty
    participants with the sample names, which are pairwise distinct: the
    duplicates button does not show afterwards.  It takes twenty random
    samples and leaves the winner record and the groups as they were. *)
Theorem loadMockData_roster (st : AppState) (r : Rng) :
  map name (names (loadMockData random_bits toString36 st r).1) = mockNames /\
  length (names (loadMockData random_bits toString36 st r).1) = 20%nat /\
  hasDuplicates (names (loadMockData random_bits toString36 st r).1) = false /\
  (loadMockData random_bits toString36 st r).2 = mkRng (samples r) (pos r + 20) /\
  winners (loadMockData random_bits toString36 st r).1 = winners st /\
  groups (loadMockData random_bits toString36 st r).1 = groups st.
Proof.
  unfold loadMockData.
  destruct (make_people_spec random_bits toString36 mockNames r) as [Hn Hr].
  destruct (make_people random_bits toString36 mockNames r) as [people r1].
  cbn [fst snd names setNames winners groups] in *.
  split; [exact Hn|]. split; [|split; [|by repeat split]].
  - by rewrite <- (length_map name), Hn.
  - unfold hasDuplicates.
    assert (duplicates people = []) as ->; [|done].
    apply duplicates_nil_NoDup. rewrite Hn. apply mockNames_NoDup.
Qed.
End PageInvariant.

Lemma draw_outcome (random_bits fuel : nat) (st : AppState) (r : Rng)
    (res : DrawResult) (st1 : AppState) (r1 : Rng) :
  draw random_bits fuel st r = Ok (res, st1, r1) ->
  st1 = st \/
  exists w,
    w ∈ availableNames_of st /\
    st1 = setIsDrawing false
            (setCurrentCandidate (Some (name w)) (setWinners (w :: winners st) st)).
Proof.
  intros Hdraw. destruct res as [|m|w].
  - left. unfold draw, startDraw in Hdraw.
    destruct (Z.of_nat (length (names st)) =? 0); [by injection Hdraw as <- _|].
    destruct (Z.of_nat (length (availableNames_of st)) =? 0); [done|].
    by destruct (run_timer random_bits fuel (availableNames_of st) 0
                   (setIsDrawing true st) r) as [[[? ?] ?]| |].
  - left. unfold draw, startDraw in Hdraw.
    destruct (Z.of_nat (length (names st)) =? 0); [done|].
    destruct (Z.of_nat (length (availableNames_of st)) =? 0);
      [by injection Hdraw as _ <- _|].
    by destruct (run_timer random_bits fuel (availableNames_of st) 0
                   (setIsDrawing true st) r) as [[[? ?] ?]| |].
  - right. exists w. by apply draw_Ok_Winner in Hdraw.
Qed.

Section DrawSessions.
Variable random_bits : nat.
Variable toString36 : Z -> string.
Variable array_sort :
  forall S : Type, (Person -> Person -> S -> Z * S) -> list Person -> S -> list Person * S.

(** X24: without repeats, however often the draw button is used in a row,
    the winner record grows by no more than the number of participants
    that were eligible at the start; the roster stays as it was. *)
Theorem draws_bounded_by_pool (fuel n : nat) (st : AppState) (r : Rng)
    (st' : AppState) (r' : Rng) :
  allowRepeat st = false ->
  runEvents random_bits toString36 array_sort fuel (replicate n EvDraw) st r =
    Ok (st', r') ->
  (length (winners st') + length (availableNames_of st') <=
   length (winners st) + length (availableNames_of st))%nat /\
  names st' = names st /\
  allowRepeat st' = false.
Proof.
  revert st r. induction n as [|n IH]; intros st r Hrep; cbn [replicate runEvents].
  - intros [= <- <-]. split; [lia | done].
  - cbn [handleEvent].
    destruct (draw random_bits fuel st r) as [[[res st1] r1]| |] eqn:Hdraw;
      cbn [mbind Res_bind]; [|done|done].
    intros Hrun. apply draw_outcome in Hdraw as [->|(w & Hw & ->)].
    + exact (IH _ _ Hrep Hrun).
    + apply IH in Hrun as (Hle & Hnames & Hrep'); [|done].
      destruct (pool_after_commit st w Hrep Hw) as [_ Hlt].
      cbn [winners names setIsDrawing setCurrentCandidate setWinners length] in *.
      split; [lia | done].
Qed.
End DrawSessions.

Lemma draws_bounded_by_pool_witness :
  exists st' r',
    runEvents 53 (reference_toString36 53) reference_sort 40
      (replicate 3 EvDraw) (setNames [sampleA1; sampleB] initialState)
      (stream_of []) = Ok (st', r') /\
    (length (winners st') + length (availableNames_of st') <=
     length (winners (setNames [sampleA1; sampleB] initialState)) +
     length (availableNames_of (setNames [sampleA1; sampleB] initialState)))%nat /\
    names st' = names (setNames [sampleA1; sampleB] initialState) /\
    allowRepeat st' = false.
Proof.
  assert (exists st' r',
            runEvents 53 (reference_toString36 53) reference_sort 40
              (replicate 3 EvDraw) (setNames [sampleA1; sampleB] initialState)
              (stream_of []) = Ok (st', r')) as (st' & r' & Hrun).
  { eexists _, _. vm_compute. reflexivity. }
  exists st', r'. split; [exact Hrun|].
  apply (draws_bounded_by_pool 53 (reference_toString36 53) reference_sort 40 3
           (setNames [sampleA1; sampleB] initialState) (stream_of []) st' r').
  - reflexivity.
  - exact Hrun.
Defined.

Lemma csvData_determines_groups_witness :
  map (map name) [[sampleA1]; [sampleB]] = map (map name) [[sampleA2]; [sampleB]].
Proof.
  apply (csvData_determines_groups [[sampleA1]; [sampleB]] [[sampleA2]; [sampleB]]).
  - repeat constructor; discriminate.
  - repeat constructor; discriminate.
  - reflexivity.
Defined.

(** A session: type two names, one of them followed by an ideographic
    space, add them, group them, draw. *)
Lemma page_invariant_kept_witness :
  exists st' r',
    runEvents 53 (reference_toString36 53) reference_sort 40
      [EvInput " Ann , 你好　"; EvAddNames; EvSizeChange (Some 1);
       EvGenerateGroups; EvDraw; EvRemoveName "i"]
      initialState (stream_of []) = Ok (st', r') /\
    page_invariant st'.
Proof.
  assert (exists st' r',
            runEvents 53 (reference_toString36 53) reference_sort 40
              [EvInput " Ann , 你好　"; EvAddNames; EvSizeChange (Some 1);
               EvGenerateGroups; EvDraw; EvRemoveName "i"]
              initialState (stream_of []) = Ok (st', r')) as (st' & r' & Hrun).
  { eexists _, _. vm_compute. reflexivity. }
  exists st', r'. split; [exact Hrun|].
  apply (page_invariant_kept 53 (reference_toString36 53) reference_sort
           reference_sort_perm 40
           [EvInput " Ann , 你好　"; EvAddNames; EvSizeChange (Some 1);
            EvGenerateGroups; EvDraw; EvRemoveName "i"]
           initialState (stream_of []) st' r').
  - apply page_invariant_initial.
  - exact Hrun.
Defined.

Lemma generateGroups_then_download_witness :
  exists st' r' rows,
    generateGroups 53 reference_sort 4
      (setGroupSize 2 (setNames [sampleA1; sampleB; sampleC] initialState))
      (stream_of []) = Ok (st', r') /\
    downloadGroupsCSV st' = Some rows /\
    map row_name rows ≡ₚ
      map name (names (setGroupSize 2
                         (setNames [sampleA1; sampleB; sampleC] initialState))) /\
    length rows =
      length (names (setGroupSize 2
                       (setNames [sampleA1; sampleB; sampleC] initialState))).
Proof.
  apply (generateGroups_then_download 53 reference_sort reference_sort_perm 4
           (setGroupSize 2 (setNames [sampleA1; sampleB; sampleC] initialState))
           (stream_of [])).
  - discriminate.
  - simpl. lia.
  - simpl. lia.
Defined.
